(** * Spotify-Backend: the token-refreshing proxy of [server.js]

    A shallow embedding of the proxy service: the two module-level
    variables [spotifyAccessToken] and [spotifyRefreshToken], the function
    [refreshAccessToken] and the handler mounted on [/api/spotify].

    JavaScript values are an inductive type; the two tokens are threaded
    through a small state-and-exception monad; every [axios] call is
    answered by an oracle [net] that sees the history of the run, so a
    theorem quantified over [net] holds for every behaviour of the token
    endpoint and of the upstream API.  Console output is not modelled: it
    neither reads nor writes the two tokens and sends nothing.

    One invocation runs from its first statement to its last without
    another handler interleaving at an [await].

    The second half of the source, the one-shot script that obtains the
    first refresh token ([/login] and [/callback]), is embedded in
    [Bootstrap] with a trace of its own: responses, the one call to the
    token endpoint, the attempt to open the browser, the end of the
    process. *)

From Stdlib Require Import ZArith List String Ascii Bool Lia PeanoNat ZifyNat.
From Stdlib Require Import DecimalString.
Import ListNotations.

Set Warnings "-register-all".

Open Scope string_scope.
Open Scope Z_scope.

(* ================================================================== *)
(** ** JavaScript values *)
(* ================================================================== *)

Module JS.

(** The values [JSON.parse] produces, plus [undefined].  [JNum] carries the
    integral numbers; no number is inspected by the code except the HTTP
    status, which is kept apart as a [Z]. *)
Inductive jsval : Type :=
| JUndefined
| JNull
| JBool (b : bool)
| JNum (n : Z)
| JStr (s : string)
| JArr (xs : list jsval)
| JObj (props : list (string * jsval)).

(** [!!v] *)
Definition truthy (v : jsval) : bool :=
  match v with
  | JUndefined | JNull => false
  | JBool b => b
  | JNum n => negb (n =? 0)
  | JStr s => negb (String.eqb s "")
  | JArr _ | JObj _ => true
  end.

(** Own property lookup in an object literal, first binding of the key. *)
Fixpoint lookup {A : Type} (k : string) (props : list (string * A)) : option A :=
  match props with
  | [] => None
  | (k', v) :: rest => if String.eqb k k' then Some v else lookup k rest
  end.

(** [v.k] for a key [k] that no prototype defines ([access_token],
    [refresh_token], [error]): the own property of an object, [undefined]
    on every other non-nullish value, and a [TypeError] ([None]) on [null]
    and [undefined]. *)
Definition member (v : jsval) (k : string) : option jsval :=
  match v with
  | JUndefined | JNull => None
  | JObj props =>
      Some (match lookup k props with Some x => x | None => JUndefined end)
  | _ => Some JUndefined
  end.

(** [v?.k] *)
Definition member_opt (v : jsval) (k : string) : jsval :=
  match member v k with Some x => x | None => JUndefined end.

(** [v === 'lit'] for a string literal. *)
Definition is_string (v : jsval) (lit : string) : bool :=
  match v with JStr s => String.eqb s lit | _ => false end.

Definition string_of_Z (n : Z) : string := NilZero.string_of_int (Z.to_int n).

(** [String(v)], the conversion a template literal and [URLSearchParams]
    apply.  An array joins its elements with commas, [null] and
    [undefined] elements printing as the empty string. *)
Fixpoint to_string (v : jsval) : string :=
  match v with
  | JUndefined => "undefined"
  | JNull => "null"
  | JBool true => "true"
  | JBool false => "false"
  | JNum n => string_of_Z n
  | JStr s => s
  | JArr xs =>
      (fix join (l : list jsval) : string :=
         match l with
         | [] => ""
         | x :: rest =>
             let sx := match x with
                       | JUndefined | JNull => ""
                       | _ => to_string x
                       end in
             match rest with
             | [] => sx
             | _ :: _ => sx ++ "," ++ join rest
             end
         end) xs
  | JObj _ => "[object Object]"
  end.

(** [Object.keys(v).length] for a truthy [v]. *)
Definition keys_length (v : jsval) : nat :=
  match v with
  | JObj props => List.length props
  | JArr xs => List.length xs
  | JStr s => String.length s
  | _ => 0%nat
  end.

End JS.
Import JS.

(* ================================================================== *)
(** ** Strings: prefixes, form-urlencoding, base64 *)
(* ================================================================== *)

Module Text.

(** [s.startsWith('/') ? s.substring(1) : s] *)
Definition strip_leading_slash (s : string) : string :=
  match s with
  | String "/" rest => rest
  | _ => s
  end.

Definition hex_digit (n : nat) : ascii :=
  match String.get n "0123456789ABCDEF" with
  | Some c => c
  | None => "0"%char
  end.

Definition between (lo hi n : nat) : bool :=
  (Nat.leb lo n && Nat.leb n hi)%bool.

(** The bytes the application/x-www-form-urlencoded serializer leaves as
    they are: ASCII letters and digits, and [*], [-], [.], [_]. *)
Definition unreserved (c : ascii) : bool :=
  let n := nat_of_ascii c in
  (between 48 57 n || between 65 90 n || between 97 122 n
   || Nat.eqb n 42 || Nat.eqb n 45 || Nat.eqb n 46 || Nat.eqb n 95)%bool.

Definition encode_byte (c : ascii) : string :=
  if unreserved c then String c ""
  else if Ascii.eqb c " " then "+"
  else let n := nat_of_ascii c in
       String "%" (String (hex_digit (n / 16)) (String (hex_digit (n mod 16)) "")).

Fixpoint urlencode (s : string) : string :=
  match s with
  | EmptyString => ""
  | String c rest => encode_byte c ++ urlencode rest
  end.

(** [new URLSearchParams(obj).toString()]: the own properties of [obj] in
    their enumeration order, every value converted with [String(v)], each
    name and value serialized afresh and the pairs joined with [&]. *)
Fixpoint URLSearchParams_toString (obj : list (string * jsval)) : string :=
  match obj with
  | [] => ""
  | (k, v) :: rest =>
      let pair := urlencode k ++ "=" ++ urlencode (to_string v) in
      match rest with
      | [] => pair
      | _ :: _ => pair ++ "&" ++ URLSearchParams_toString rest
      end
  end.

Definition b64_digit (n : nat) : ascii :=
  match String.get n
    "ABCDEFGHIJKLMNOPQRSTUVWXYZabcdefghijklmnopqrstuvwxyz0123456789+/" with
  | Some c => c
  | None => "="%char
  end.

Fixpoint base64_bytes (l : list nat) : string :=
  match l with
  | [] => ""
  | [a] =>
      String (b64_digit (a / 4)) (String (b64_digit (a mod 4 * 16)) "==")
  | [a; b] =>
      String (b64_digit (a / 4))
        (String (b64_digit (a mod 4 * 16 + b / 16))
           (String (b64_digit (b mod 16 * 4)) "="))
  | a :: b :: c :: rest =>
      String (b64_digit (a / 4))
        (String (b64_digit (a mod 4 * 16 + b / 16))
           (String (b64_digit (b mod 16 * 4 + c / 64))
              (String (b64_digit (c mod 64)) (base64_bytes rest))))
  end%nat.

(** [Buffer.from(s).toString('base64')] *)
Definition base64 (s : string) : string :=
  base64_bytes (List.map nat_of_ascii (list_ascii_of_string s)).

End Text.
Import Text.

(* ================================================================== *)
(** ** The world: tokens, axios, the response object *)
(* ================================================================== *)

(** The two module-level [let] variables of [server.js]. *)
Record tokens : Type := {
  spotifyAccessToken : jsval;
  spotifyRefreshToken : jsval
}.

(** The request configuration handed to [axios]; [cfg_data] is [None]
    when the object has no [data] key. *)
Record axios_config : Type := {
  cfg_method : string;
  cfg_url : string;
  cfg_headers : list (string * string);
  cfg_data : option jsval;
  cfg_timeout : Z
}.

(** How an [axios] promise settles: fulfilled with a response, rejected
    with an error that carries the response (a status the default
    [validateStatus] refuses), or rejected with no response at all
    (timeout, network failure). *)
Inductive axios_result : Type :=
| Fulfilled (status : Z) (data : jsval)
| RejectedResponse (status : Z) (data : jsval)
| RejectedNoResponse (message : string).

Record response : Type := { status : Z; data : jsval }.

(** A caught exception: [error.response] and [error.message]. *)
Record js_error : Type := {
  err_response : option response;
  err_message : string
}.

(** What a run does that the outside can see, in order.  [ERefresh] marks
    an entry into [refreshAccessToken]. *)
Inductive event : Type :=
| ERefresh
| EPost (cfg : axios_config)          (* axios.post(url, body, config) *)
| ERequest (cfg : axios_config)       (* axios(config) *)
| ERespond (code : Z) (body : jsval). (* res.status(code).json(body) *)

Record world : Type := { creds : tokens; trace : list event }.

(** The network: what a call settles to, given everything that happened
    before it. *)
Definition network : Type := list event -> axios_config -> axios_result.

(** The inbound request as the handler reads it: [req.method], [req.path]
    (the mount prefix already stripped), [req.query] and [req.body] as
    parsed by Express, [req.headers]. *)
Record request : Type := {
  req_method : string;
  req_path : string;
  req_query : list (string * jsval);
  req_headers : list (string * string);
  req_body : jsval
}.

(* ================================================================== *)
(** ** A state-and-exception monad *)
(* ================================================================== *)

Inductive outcome (A : Type) : Type :=
| Returned (a : A)
| Thrown (e : js_error).
Arguments Returned {A} a.
Arguments Thrown {A} e.

Definition M (A : Type) : Type := world -> outcome A * world.

Definition ret {A} (a : A) : M A := fun w => (Returned a, w).

Definition bind {A B} (m : M A) (k : A -> M B) : M B :=
  fun w => match m w with
           | (Returned a, w') => k a w'
           | (Thrown e, w') => (Thrown e, w')
           end.

Definition throw {A} (e : js_error) : M A := fun w => (Thrown e, w).

(** [try { body } catch (error) { handler }] *)
Definition try_catch {A} (body : M A) (handler : js_error -> M A) : M A :=
  fun w => match body w with
           | (Returned a, w') => (Returned a, w')
           | (Thrown e, w') => handler e w'
           end.

Declare Scope js_scope.
Delimit Scope js_scope with js.
Notation "x <- m ;; k" := (bind m (fun x => k))
  (at level 100, m at next level, right associativity) : js_scope.
Notation "m ;; k" := (bind m (fun _ => k))
  (at level 100, right associativity) : js_scope.
Open Scope js_scope.

Definition emit (e : event) : M unit :=
  fun w => (Returned tt, {| creds := creds w; trace := trace w ++ [e] |}).

Definition read_access : M jsval := fun w => (Returned (spotifyAccessToken (creds w)), w).
Definition read_refresh : M jsval := fun w => (Returned (spotifyRefreshToken (creds w)), w).

Definition write_access (v : jsval) : M unit :=
  fun w => (Returned tt,
            {| creds := {| spotifyAccessToken := v;
                           spotifyRefreshToken := spotifyRefreshToken (creds w) |};
               trace := trace w |}).

Definition write_refresh (v : jsval) : M unit :=
  fun w => (Returned tt,
            {| creds := {| spotifyAccessToken := spotifyAccessToken (creds w);
                           spotifyRefreshToken := v |};
               trace := trace w |}).

(** A property read that throws a [TypeError] on [null] and [undefined]. *)
Definition get_member (v : jsval) (k : string) : M jsval :=
  match member v k with
  | Some x => ret x
  | None => throw {| err_response := None;
                     err_message := "Cannot read properties of " ++ to_string v |}
  end.

(** [res.status(code).json(body)] *)
Definition respond (code : Z) (body : jsval) : M unit := emit (ERespond code body).

Definition settle (r : axios_result) : M response :=
  match r with
  | Fulfilled st d => ret {| status := st; data := d |}
  | RejectedResponse st d =>
      throw {| err_response := Some {| status := st; data := d |};
               err_message := "Request failed with status code " ++ string_of_Z st |}
  | RejectedNoResponse msg => throw {| err_response := None; err_message := msg |}
  end.

Section Server.

(** [process.env.SPOTIFY_CLIENT_ID], [process.env.SPOTIFY_CLIENT_SECRET]. *)
Variable CLIENT_ID CLIENT_SECRET : string.
Variable net : network.

(** [await axios(cfg)] *)
Definition axios (cfg : axios_config) : M response :=
  fun w => settle (net (trace w) cfg)
             {| creds := creds w; trace := trace w ++ [ERequest cfg] |}.

(** [await axios.post(url, body, config)] *)
Definition axios_post (url body : string) (headers : list (string * string))
    (timeout : Z) : M response :=
  let cfg := {| cfg_method := "post"; cfg_url := url; cfg_headers := headers;
                cfg_data := Some (JStr body); cfg_timeout := timeout |} in
  fun w => settle (net (trace w) cfg)
             {| creds := creds w; trace := trace w ++ [EPost cfg] |}.

(* ================================================================== *)
(** ** [refreshAccessToken] *)
(* ================================================================== *)

Definition token_url : string := "https://accounts.spotify.com/api/token".

Definition token_body (refresh_token : jsval) : string :=
  URLSearchParams_toString
    [("grant_type", JStr "refresh_token"); ("refresh_token", refresh_token)].

Definition token_headers : list (string * string) :=
  let authHeader := base64 (CLIENT_ID ++ ":" ++ CLIENT_SECRET) in
  [("Content-Type", "application/x-www-form-urlencoded");
   ("Authorization", "Basic " ++ authHeader)].

Definition refreshAccessToken : M bool :=
  emit ERefresh ;;
  rt <- read_refresh ;;
  if negb (truthy rt) then ret false
  else
    try_catch
      (response <- axios_post token_url (token_body rt) token_headers 10000 ;;
       access_token <- get_member (data response) "access_token" ;;
       write_access access_token ;;
       refresh_token <- get_member (data response) "refresh_token" ;;
       (if truthy refresh_token then write_refresh refresh_token else ret tt) ;;
       ret true)
      (fun error =>
         write_access (JStr "") ;;
         match err_response error with
         | Some r =>
             (if (status r =? 400)
                 && is_string (member_opt (data r) "error") "invalid_grant"
              then write_refresh JNull else ret tt) ;;
             ret false
         | None => ret false
         end).

(* ================================================================== *)
(** ** The handler of [app.use('/api/spotify', ...)] *)
(* ================================================================== *)

Definition spotifyEndpoint (req : request) : string :=
  strip_leading_slash (req_path req).

(** Lines 93-94, where [new URLSearchParams(req.query)] returns;
    [build_query] below has the values on which it throws. *)
Definition spotifyUrl (req : request) : string :=
  let query := URLSearchParams_toString (req_query req) in
  "https://api.spotify.com/v1/" ++ spotifyEndpoint req
    ++ (if String.eqb query "" then "" else "?" ++ query).

Definition bearer (token : jsval) : string * string :=
  ("Authorization", "Bearer " ++ to_string token).

(** [...(req.headers['content-type'] && { 'Content-Type': ... })] *)
Definition forwarded_content_type (req : request) : list (string * string) :=
  match lookup "content-type" (req_headers req) with
  | Some ct => if String.eqb ct "" then [] else [("Content-Type", ct)]
  | None => []
  end.

(** [...(req.body && Object.keys(req.body).length > 0 && { data: req.body })] *)
Definition forwarded_body (req : request) : option jsval :=
  if truthy (req_body req) && Nat.ltb 0 (keys_length (req_body req))
  then Some (req_body req) else None.

Definition first_config (req : request) (token : jsval) : axios_config :=
  {| cfg_method := req_method req;
     cfg_url := spotifyUrl req;
     cfg_headers := bearer token :: forwarded_content_type req;
     cfg_data := forwarded_body req;
     cfg_timeout := 15000 |}.

Definition retry_config (req : request) (token : jsval) : axios_config :=
  {| cfg_method := req_method req;
     cfg_url := spotifyUrl req;
     cfg_headers := [bearer token];
     cfg_data := Some (req_body req);
     cfg_timeout := 15000 |}.

Definition unavailable (message : string) : jsval :=
  JObj [("error", JStr "Service Unavailable"); ("message", JStr message)].

Definition retry (req : request) : M unit :=
  try_catch
    (token <- read_access ;;
     retryResponse <- axios (retry_config req token) ;;
     respond (status retryResponse) (data retryResponse))
    (fun retryError =>
       match err_response retryError with
       | Some r => respond (status r) (data r)
       | None =>
           respond 500 (JObj [("error", JStr "Internal Server Error during retry")])
       end).

(** Lines 121-150: the answer to a 401 from the first attempt. *)
Definition reauthenticate (req : request) : M unit :=
  write_access (JStr "") ;;
  refreshed <- refreshAccessToken ;;
  token <- read_access ;;
  if refreshed && truthy token then retry req
  else respond 503 (unavailable "Failed to re-authenticate with Spotify.").

(** Steps 2 to 5 of the handler: everything after the token check. *)
Definition forward (req : request) : M unit :=
  try_catch
    (token <- read_access ;;
     spotifyResponse <- axios (first_config req token) ;;
     respond (status spotifyResponse) (data spotifyResponse))
    (fun error =>
       match err_response error with
       | Some r =>
           let statusCode := status r in
           if statusCode =? 401 then reauthenticate req
           else respond statusCode (data r)
       | None =>
           respond 500 (JObj [("error", JStr "Internal Server Error");
                              ("message", JStr "Failed to communicate with Spotify.")])
       end).

(** Lines 78-161 on the requests whose query converts;
    [handler_line_93] below has line 93 with its exception. *)
Definition handler (req : request) : M unit :=
  token <- read_access ;;
  if negb (truthy token) then
    refreshed <- refreshAccessToken ;;
    if negb refreshed
    then respond 503 (unavailable "Failed to authenticate with Spotify.")
    else forward req
  else forward req.

(** The requests of a run, handled one after the other. *)
Fixpoint serve (reqs : list request) : M unit :=
  match reqs with
  | [] => ret tt
  | req :: rest => handler req ;; serve rest
  end.

(** Lines 12-21: the tokens the process starts with, once the check of
    the environment has let it pass. *)
Definition startup (SPOTIFY_REFRESH_TOKEN : string) : world :=
  {| creds := {| spotifyAccessToken := JStr "";
                 spotifyRefreshToken := JStr SPOTIFY_REFRESH_TOKEN |};
     trace := [] |}.

(** Lines 164-191: the first refresh, then the requests. *)
Definition main (reqs : list request) : M unit :=
  refreshAccessToken ;; serve reqs.

End Server.

(* ================================================================== *)
(** ** Reading a run *)
(* ================================================================== *)

(** The upstream calls of a trace, in order. *)
Fixpoint requests (t : list event) : list axios_config :=
  match t with
  | [] => []
  | ERequest cfg :: rest => cfg :: requests rest
  | _ :: rest => requests rest
  end.

(** The token-endpoint calls of a trace, in order. *)
Fixpoint posts (t : list event) : list axios_config :=
  match t with
  | [] => []
  | EPost cfg :: rest => cfg :: posts rest
  | _ :: rest => posts rest
  end.

(** How many times [refreshAccessToken] was entered. *)
Fixpoint refreshes (t : list event) : nat :=
  match t with
  | [] => 0%nat
  | ERefresh :: rest => S (refreshes rest)
  | _ :: rest => refreshes rest
  end.

(** What was sent to the client. *)
Fixpoint responses (t : list event) : list (Z * jsval) :=
  match t with
  | [] => []
  | ERespond code body :: rest => (code, body) :: responses rest
  | _ :: rest => responses rest
  end.

(** The world [w] after the events [es]. *)
Definition after (w : world) (es : list event) : world :=
  {| creds := creds w; trace := trace w ++ es |}.

Definition with_access (v : jsval) (w : world) : world :=
  {| creds := {| spotifyAccessToken := v;
                 spotifyRefreshToken := spotifyRefreshToken (creds w) |};
     trace := trace w |}.

(** The call [refreshAccessToken] makes to the token endpoint. *)
Definition token_request (CLIENT_ID CLIENT_SECRET : string) (rt : jsval) : axios_config :=
  {| cfg_method := "post"; cfg_url := token_url;
     cfg_headers := token_headers CLIENT_ID CLIENT_SECRET;
     cfg_data := Some (JStr (token_body rt)); cfg_timeout := 10000 |}.

(** What the client is told about the second attempt. *)
Definition relay_retry (r : axios_result) : Z * jsval :=
  match r with
  | Fulfilled st d => (st, d)
  | RejectedResponse st d => (st, d)
  | RejectedNoResponse _ =>
      (500, JObj [("error", JStr "Internal Server Error during retry")])
  end.

Definition respond_event (p : Z * jsval) : event := ERespond (fst p) (snd p).

Definition reauth_failed : jsval := unavailable "Failed to re-authenticate with Spotify.".
Definition auth_failed : jsval := unavailable "Failed to authenticate with Spotify.".

(** The failure line 65 singles out: status 400 with [error] equal to
    ['invalid_grant']. *)
Definition invalid_grant (r : axios_result) : bool :=
  match r with
  | RejectedResponse st d =>
      (st =? 400) && is_string (member_opt d "error") "invalid_grant"
  | _ => false
  end.

(** The state [refreshAccessToken] leaves behind once the token endpoint
    has answered [r], and what it returns. *)
Definition refresh_settles (rt : jsval) (r : axios_result) : bool * tokens :=
  match r with
  | Fulfilled _ d =>
      match member d "access_token" with
      | Some access_token =>
          (true, {| spotifyAccessToken := access_token;
                    spotifyRefreshToken :=
                      if truthy (member_opt d "refresh_token")
                      then member_opt d "refresh_token" else rt |})
      | None => (false, {| spotifyAccessToken := JStr ""; spotifyRefreshToken := rt |})
      end
  | RejectedResponse st d =>
      (false, {| spotifyAccessToken := JStr "";
                 spotifyRefreshToken :=
                   if (st =? 400) && is_string (member_opt d "error") "invalid_grant"
                   then JNull else rt |})
  | RejectedNoResponse _ =>
      (false, {| spotifyAccessToken := JStr ""; spotifyRefreshToken := rt |})
  end.

(** What every run from [startup] keeps true of the two tokens: there is a
    refresh token, or it is [null] and the access token is empty. *)
Definition settled (c : tokens) : Prop :=
  truthy (spotifyRefreshToken c) = true
  \/ (spotifyRefreshToken c = JNull /\ spotifyAccessToken c = JStr "").

Section FirstAttempt.

Variable CLIENT_ID CLIENT_SECRET : string.
Variable net : network.

(** Step 1 of the handler: [w1] is the world in which the first attempt
    is made, either the one the request found (a token is held) or the
    one a successful refresh left. *)
Inductive first_attempt_from (w : world) : world -> Prop :=
| token_held :
    truthy (spotifyAccessToken (creds w)) = true ->
    first_attempt_from w w
| token_refreshed (w1 : world) :
    truthy (spotifyAccessToken (creds w)) = false ->
    refreshAccessToken CLIENT_ID CLIENT_SECRET net w = (Returned true, w1) ->
    first_attempt_from w w1.

End FirstAttempt.

(* ================================================================== *)
(** ** Line 93, and the [await] inside [refreshAccessToken] *)
(* ================================================================== *)

(** Whether [String(v)] returns.  On an object with an own [toString]
    property, which parsed data never makes callable, it throws a
    [TypeError]; an array converts when its elements do.  [to_string] is
    the result where [String(v)] returns. *)
Fixpoint converts (v : jsval) : bool :=
  match v with
  | JObj props =>
      match lookup "toString" props with
      | Some _ => false
      | None => true
      end
  | JArr xs =>
      (fix all (l : list jsval) : bool :=
         match l with
         | [] => true
         | x :: rest => converts x && all rest
         end) xs
  | _ => true
  end.

(** Whether [new URLSearchParams(req.query)] returns: every value of the
    parsed query converts. *)
Definition query_converts (req : request) : bool :=
  List.forallb (fun kv => converts (snd kv)) (req_query req).

Section LineByLine.

Variable CLIENT_ID CLIENT_SECRET : string.
Variable net : network.

(** Line 93, outside every [try]: the query string, or the [TypeError]
    of a value that does not convert. *)
Definition build_query (req : request) : M string :=
  if query_converts req
  then ret (URLSearchParams_toString (req_query req))
  else throw {| err_response := None;
                err_message := "Cannot convert object to primitive value" |}.

(** The handler with line 93 in its place, between the token check and
    the [try]; [handler] is this one on the requests whose query
    converts. *)
Definition handler_line_93 (req : request) : M unit :=
  token <- read_access ;;
  if negb (truthy token) then
    refreshed <- refreshAccessToken CLIENT_ID CLIENT_SECRET net ;;
    if negb refreshed
    then respond 503 (unavailable "Failed to authenticate with Spotify.")
    else build_query req ;; forward CLIENT_ID CLIENT_SECRET net req
  else build_query req ;; forward CLIENT_ID CLIENT_SECRET net req.

(** [refreshAccessToken] up to its [await] (lines 32-48): the call it has
    sent, or [None] when it has returned [false] at once. *)
Definition refresh_until_await : M (option axios_config) :=
  emit ERefresh ;;
  rt <- read_refresh ;;
  if negb (truthy rt) then ret None
  else
    let cfg := token_request CLIENT_ID CLIENT_SECRET rt in
    emit (EPost cfg) ;; ret (Some cfg).

(** [refreshAccessToken] from its [await] on (lines 50-73), once the
    call has settled to [r]. *)
Definition refresh_from_await (r : axios_result) : M bool :=
  try_catch
    (response <- settle r ;;
     access_token <- get_member (data response) "access_token" ;;
     write_access access_token ;;
     refresh_token <- get_member (data response) "refresh_token" ;;
     (if truthy refresh_token then write_refresh refresh_token else ret tt) ;;
     ret true)
    (fun error =>
       write_access (JStr "") ;;
       match err_response error with
       | Some r =>
           (if (status r =? 400)
               && is_string (member_opt (data r) "error") "invalid_grant"
            then write_refresh JNull else ret tt) ;;
           ret false
       | None => ret false
       end).

End LineByLine.

(* ================================================================== *)
(** ** Reading a query string *)
(* ================================================================== *)

(** The receiving end of a query string: the application/x-www-form-urlencoded
    reading, by which the upstream recovers names and values. *)
Module Query.

Definition unhex (c : ascii) : option nat :=
  let n := nat_of_ascii c in
  if between 48 57 n then Some (n - 48)%nat
  else if between 65 70 n then Some (n - 55)%nat
  else if between 97 102 n then Some (n - 87)%nat
  else None.

Fixpoint urldecode (s : string) : string :=
  match s with
  | EmptyString => ""
  | String c rest =>
      if Ascii.eqb c "+" then String " " (urldecode rest)
      else if Ascii.eqb c "%" then
        match rest with
        | String h (String l rest') =>
            match unhex h, unhex l with
            | Some a, Some b =>
                String (ascii_of_nat (16 * a + b)) (urldecode rest')
            | _, _ => String c (urldecode rest)
            end
        | _ => String c (urldecode rest)
        end
      else String c (urldecode rest)
  end.

(** [s] up to the first [sep], and what follows it. *)
Fixpoint cut (sep : ascii) (s : string) : string * string :=
  match s with
  | EmptyString => ("", "")
  | String c rest =>
      if Ascii.eqb c sep then ("", rest)
      else let (a, b) := cut sep rest in (String c a, b)
  end.

Fixpoint split (sep : ascii) (s : string) : list string :=
  match s with
  | EmptyString => [""]
  | String c rest =>
      if Ascii.eqb c sep then "" :: split sep rest
      else match split sep rest with
           | p :: ps => String c p :: ps
           | [] => [String c ""]
           end
  end.

(** A piece [name=value], decoded. *)
Definition read_pair (p : string) : string * string :=
  let (k, v) := cut "=" p in (urldecode k, urldecode v).

(** The pieces between [&], the empty ones dropped, each read as a pair. *)
Definition parse (s : string) : list (string * string) :=
  List.map read_pair (List.filter (fun p => negb (String.eqb p "")) (split "&" s)).

Fixpoint occurs (c : ascii) (s : string) : bool :=
  match s with
  | EmptyString => false
  | String x rest => Ascii.eqb x c || occurs c rest
  end.

(** One serialized pair. *)
Definition pair_string (kv : string * jsval) : string :=
  urlencode (fst kv) ++ "=" ++ urlencode (to_string (snd kv)).

End Query.

(* ================================================================== *)
(** ** Concrete runs *)
(* ================================================================== *)

Module Run.

Definition id : string := "client-id".
Definition secret : string := "client-secret".

(** A network that answers the n-th call to the token endpoint and the
    n-th upstream call from two lists, and times out past their ends. *)
Definition scripted (token_answers upstream_answers : list axios_result) : network :=
  fun history cfg =>
    if String.eqb (cfg_url cfg) token_url
    then List.nth (List.length (posts history)) token_answers
           (RejectedNoResponse "timeout of 10000ms exceeded")
    else List.nth (List.length (requests history)) upstream_answers
           (RejectedNoResponse "timeout of 15000ms exceeded").

Definition holding (access refresh : jsval) : world :=
  {| creds := {| spotifyAccessToken := access; spotifyRefreshToken := refresh |};
     trace := [] |}.

Definition get_me : request :=
  {| req_method := "GET"; req_path := "/me"; req_query := [];
     req_headers := [("accept", "application/json")]; req_body := JObj [] |}.

Definition get_tracks : request :=
  {| req_method := "GET"; req_path := "/tracks";
     req_query := [("ids", JStr "1,2")];
     req_headers := []; req_body := JObj [] |}.

Definition add_tracks : request :=
  {| req_method := "POST"; req_path := "/playlists/p1/tracks"; req_query := [];
     req_headers := [("content-type", "application/json")];
     req_body := JObj [("uris", JArr [JStr "spotify:track:1"])] |}.

Definition pause : request :=
  {| req_method := "PUT"; req_path := "/me/player/pause"; req_query := [];
     req_headers := []; req_body := JObj [] |}.

Definition expired : jsval :=
  JObj [("error", JObj [("status", JNum 401);
                        ("message", JStr "The access token expired")])].

Definition rate_limited : jsval :=
  JObj [("error", JObj [("status", JNum 429); ("message", JStr "rate limited")])].

Definition granted (access_token : string) : axios_result :=
  Fulfilled 200 (JObj [("access_token", JStr access_token);
                       ("token_type", JStr "Bearer"); ("expires_in", JNum 3600)]).

Definition revoked : axios_result :=
  RejectedResponse 400 (JObj [("error", JStr "invalid_grant");
                              ("error_description", JStr "Refresh token revoked")]).

End Run.

Module ScriptRun.

Definition callback_denied : request :=
  {| req_method := "GET"; req_path := "/callback";
     req_query := [("error", JStr "access_denied"); ("state", JStr "0f")];
     req_headers := []; req_body := JUndefined |}.

Definition callback_with_code : request :=
  {| req_method := "GET"; req_path := "/callback";
     req_query := [("code", JStr "AQBx"); ("state", JStr "0f")];
     req_headers := []; req_body := JUndefined |}.

Definition callback_without_state : request :=
  {| req_method := "GET"; req_path := "/callback";
     req_query := [("code", JStr "AQBx")];
     req_headers := []; req_body := JUndefined |}.

Definition callback_code_twice : request :=
  {| req_method := "GET"; req_path := "/callback";
     req_query := [("code", JArr [JStr "AQBx"; JStr "AQBy"])];
     req_headers := []; req_body := JUndefined |}.

Definition tokens_granted : axios_config -> axios_result :=
  fun _ => Fulfilled 200 (JObj [("access_token", JStr "a1");
                                ("token_type", JStr "Bearer");
                                ("expires_in", JNum 3600);
                                ("refresh_token", JStr "r1")]).

End ScriptRun.

(* ================================================================== *)
(** ** The process: environment and start of [server.js] *)
(* ================================================================== *)

(** [process.env]: the variables that are set, with their values. *)
Definition environment : Type := list (string * string).

(** [process.env.NAME]: a string, or [undefined] when the variable is not
    set. *)
Definition getenv (env : environment) (name : string) : jsval :=
  match lookup name env with
  | Some v => JStr v
  | None => JUndefined
  end.

(** [a || b] *)
Definition js_or (a b : jsval) : jsval := if truthy a then a else b.

(** How the start of the process ends. *)
Inductive started : Type :=
| ConfigMissing                      (* lines 15-18: process.exit(1) *)
| StartRejected (w : world)          (* lines 188-191: process.exit(1) *)
| ListenFailed (w : world)           (* lines 179-186: process.exit(1) *)
| Listening (port : jsval) (w : world).

(** Lines 8-21 and 164-191.  [listen_error] is the error [app.listen]
    reports, if any. *)
Definition start (env : environment) (net : network) (listen_error : option string)
  : started :=
  let CLIENT_ID := getenv env "SPOTIFY_CLIENT_ID" in
  let CLIENT_SECRET := getenv env "SPOTIFY_CLIENT_SECRET" in
  let FRONTEND_URL := getenv env "FRONTEND_URL" in
  let PORT := js_or (getenv env "PORT") (JNum 8000) in
  let spotifyRefreshToken := getenv env "SPOTIFY_REFRESH_TOKEN" in
  if negb (truthy CLIENT_ID) || negb (truthy CLIENT_SECRET)
     || negb (truthy spotifyRefreshToken) || negb (truthy FRONTEND_URL)
  then ConfigMissing
  else
    let w0 := {| creds := {| spotifyAccessToken := JStr "";
                             spotifyRefreshToken := spotifyRefreshToken |};
                 trace := [] |} in
    match refreshAccessToken (to_string CLIENT_ID) (to_string CLIENT_SECRET) net w0 with
    | (Returned _, w) =>
        match listen_error with
        | None => Listening PORT w
        | Some _ => ListenFailed w
        end
    | (Thrown _, w) => StartRejected w
    end.

(* ================================================================== *)
(** ** The one-shot script [get_refresh_token.js] *)
(* ================================================================== *)

Module Bootstrap.

(** What the script does that the outside can see. *)
Inductive effect : Type :=
| Send (code : Z) (body : string)    (* res.status(code).send(body) *)
| Post (cfg : axios_config)          (* axios.post(url, body, config) *)
| Open (url : string)                (* open(url) *)
| Exit (code : Z).                   (* server.close(() => process.exit(code)) *)

Definition B (A : Type) : Type := list effect -> outcome A * list effect.

Definition ret {A} (a : A) : B A := fun t => (Returned a, t).

Definition bind {A C} (m : B A) (k : A -> B C) : B C :=
  fun t => match m t with
           | (Returned a, t') => k a t'
           | (Thrown e, t') => (Thrown e, t')
           end.

Definition throw {A} (e : js_error) : B A := fun t => (Thrown e, t).

Definition try_catch {A} (body : B A) (handler : js_error -> B A) : B A :=
  fun t => match body t with
           | (Returned a, t') => (Returned a, t')
           | (Thrown e, t') => handler e t'
           end.

Declare Scope boot_scope.
Delimit Scope boot_scope with boot.
Notation "x <- m ;; k" := (bind m (fun x => k))
  (at level 100, m at next level, right associativity) : boot_scope.
Notation "m ;; k" := (bind m (fun _ => k))
  (at level 100, right associativity) : boot_scope.
Local Open Scope boot_scope.

Definition effect_ (e : effect) : B unit := fun t => (Returned tt, (t ++ [e])%list).

Definition send (code : Z) (body : string) : B unit := effect_ (Send code body).

Definition type_error {A} (message : string) : B A :=
  throw {| err_response := None; err_message := message |}.

(** [v.k], with the [TypeError] of a read off [null] or [undefined]. *)
Definition get_member (v : jsval) (k : string) : B jsval :=
  match member v k with
  | Some x => ret x
  | None => type_error ("Cannot read properties of " ++ to_string v
                          ++ " (reading '" ++ k ++ "')")
  end.

(** [v ? v.substring(0, 10) + "..." : alt], evaluated as an argument of
    [console.log]: the text is not kept, the [TypeError] of a truthy [v]
    that is no string is. *)
Definition preview (name : string) (v : jsval) : B unit :=
  if truthy v
  then match v with
       | JStr _ => ret tt
       | _ => type_error (name ++ ".substring is not a function")
       end
  else ret tt.

(** The double quote. *)
Definition dq : string := String "034" "".

Definition redirect_page (authUrl : string) : string :=
  "<html><body><p>Redirecting you to Spotify to authorize...</p><script>window.location.href="
  ++ dq
  ++ authUrl
  ++ dq
  ++ ";</script></body></html>".

Definition error_page (error : string) : string :=
  "<html><body><h1>Error during authorization</h1><p>"
  ++ error
  ++ "</p><p>Check the script console.</p></body></html>".

Definition no_code_page : string :=
  "<html><body><h1>Error</h1><p>Authorization code not found in callback query parameters.</p></body></html>".

Definition no_refresh_token_page : string :=
  "<html><body><h1>Error</h1><p>Did not receive a refresh token from Spotify. Check the script console.</p></body></html>".

Definition success_page (refreshToken : string) : string :=
  "
                <html>
                    <head><title>Spotify Token Acquired</title></head>
                    <body style="
  ++ dq
  ++ "font-family: sans-serif; padding: 20px;"
  ++ dq
  ++ ">
                        <h1>Success!</h1>
                        <p>Refresh token has been printed to the script's console.</p>
                        <p>You can now close this browser tab and stop the script (Ctrl+C in the terminal).</p>
                        <hr>
                        <p><strong>Your Refresh Token:</strong></p>
                        <p style="
  ++ dq
  ++ "font-family: monospace; background: #eee; padding: 15px; word-break: break-all; border-radius: 5px; font-size: 1.1em;"
  ++ dq
  ++ ">
                            "
  ++ refreshToken
  ++ "
                        </p>
                        <hr>
                        <p style="
  ++ dq
  ++ "font-size: 0.8em; color: #555;"
  ++ dq
  ++ ">(Do not share this token)</p>
                    </body>
                </html>".

Definition exchange_error_page (err_message : string) : string :=
  "<html><body><h1>Error Exchanging Token</h1><p>Failed to get tokens from Spotify. Check the script console for details.</p><p>"
  ++ err_message
  ++ "</p></body></html>".

Definition hex_lower (n : nat) : ascii :=
  match String.get n "0123456789abcdef" with
  | Some c => c
  | None => "0"%char
  end.

(** [buffer.toString('hex')] *)
Fixpoint to_hex (bytes : string) : string :=
  match bytes with
  | EmptyString => ""
  | String c rest =>
      let n := nat_of_ascii c in
      String (hex_lower (n / 16)) (String (hex_lower (n mod 16)) (to_hex rest))
  end.

(** How [(await import('open')).default] and [await open(authUrl)] go. *)
Inductive browser : Type :=
| ImportRejected (err : js_error)
| OpenRejected (err : js_error)
| Opened.

(** [req.query.name] *)
Definition query_param (req : request) (name : string) : jsval :=
  match lookup name (req_query req) with
  | Some v => v
  | None => JUndefined
  end.

Section Script.

(** [SPOTIFY_CLIENT_ID], [SPOTIFY_CLIENT_SECRET], [TEMP_REDIRECT_URI],
    [SPOTIFY_SCOPES]. *)
Variable clientId clientSecret redirectUri scope : string.

(** The token endpoint's answer to the one call [/callback] can make. *)
Variable exchange : axios_config -> axios_result.

Definition authorize_params (state : string) : list (string * jsval) :=
  [("response_type", JStr "code");
   ("client_id", JStr clientId);
   ("scope", JStr scope);
   ("redirect_uri", JStr redirectUri);
   ("state", JStr state)].

Definition authUrl (state : string) : string :=
  "https://accounts.spotify.com/authorize?"
    ++ URLSearchParams_toString (authorize_params state).

(** Lines 213-245.  [random] is what [crypto.randomBytes(16)] returns;
    [opening] is how the attempt to open the browser goes. *)
Definition login (random : string) (opening : browser) : B unit :=
  let state := to_hex random in
  send 200 (redirect_page (authUrl state)) ;;
  try_catch
    (match opening with
     | ImportRejected err => throw err
     | OpenRejected err => effect_ (Open (authUrl state)) ;; throw err
     | Opened => effect_ (Open (authUrl state))
     end)
    (fun err => ret tt).

Definition exchange_request (code : jsval) : axios_config :=
  let authHeader := base64 (clientId ++ ":" ++ clientSecret) in
  {| cfg_method := "post";
     cfg_url := "https://accounts.spotify.com/api/token";
     cfg_headers := [("Content-Type", "application/x-www-form-urlencoded");
                     ("Authorization", "Basic " ++ authHeader)];
     cfg_data := Some (JStr (URLSearchParams_toString
                               [("grant_type", JStr "authorization_code");
                                ("code", code);
                                ("redirect_uri", JStr redirectUri)]));
     cfg_timeout := 0 |}.

(** [await axios.post(...)] *)
Definition post (cfg : axios_config) : B response :=
  fun t =>
    let t' := (t ++ [Post cfg])%list in
    match exchange cfg with
    | Fulfilled st d => (Returned {| status := st; data := d |}, t')
    | RejectedResponse st d =>
        (Thrown {| err_response := Some {| status := st; data := d |};
                   err_message := "Request failed with status code " ++ string_of_Z st |},
         t')
    | RejectedNoResponse msg => (Thrown {| err_response := None; err_message := msg |}, t')
    end.

(** Lines 248-358. *)
Definition callback (req : request) : B unit :=
  let code := js_or (query_param req "code") JNull in
  let state := js_or (query_param req "state") JNull in
  let error := js_or (query_param req "error") JNull in
  preview "code" code ;;
  if truthy error then send 200 (error_page (to_string error))
  else if negb (truthy code) then send 400 no_code_page
  else
    try_catch
      (tokenResponse <- post (exchange_request code) ;;
       accessToken <- get_member (data tokenResponse) "access_token" ;;
       refreshToken <- get_member (data tokenResponse) "refresh_token" ;;
       expiresIn <- get_member (data tokenResponse) "expires_in" ;;
       (if negb (truthy refreshToken)
        then send 500 no_refresh_token_page
        else
          preview "accessToken" accessToken ;;
          send 200 (success_page (to_string refreshToken))) ;;
       effect_ (Exit (if truthy refreshToken then 0 else 1)))
      (fun err =>
         send 500 (exchange_error_page (err_message err)) ;;
         effect_ (Exit 1)).

End Script.

(** Lines 200-210 and 369-380: the check of the environment, then
    [app.listen(port)]. *)
Inductive launched : Type :=
| Unconfigured                       (* process.exit(1) *)
| PortTaken                          (* server.on('error'): process.exit(1) *)
| Serving (port : jsval).

Definition launch (env : environment) (listen_error : option string) : launched :=
  let port := js_or (getenv env "TEMP_PORT") (JNum 8888) in
  let clientId := getenv env "SPOTIFY_CLIENT_ID" in
  let clientSecret := getenv env "SPOTIFY_CLIENT_SECRET" in
  let redirectUri := getenv env "TEMP_REDIRECT_URI" in
  let scope := getenv env "SPOTIFY_SCOPES" in
  if negb (truthy clientId) || negb (truthy clientSecret)
     || negb (truthy redirectUri) || negb (truthy scope)
  then Unconfigured
  else match listen_error with
       | None => Serving port
       | Some _ => PortTaken
       end.

End Bootstrap.

(* ================================================================== *)
(** ** Reading back what the code writes: alphabets, hex, base64 *)
(* ================================================================== *)

Module Codec.

(** Every character of [s] satisfies [p]. *)
Fixpoint every (p : ascii -> bool) (s : string) : bool :=
  match s with
  | EmptyString => true
  | String c rest => p c && every p rest
  end.

Definition one_of (set : string) (c : ascii) : bool := Query.occurs c set.

(** Letters, digits and [*-._], and the four characters the serializer
    adds: [+], [%], [=], [&]. *)
Definition query_char (c : ascii) : bool := unreserved c || one_of "+%=&" c.

(** The characters of a URL the script builds. *)
Definition url_char (c : ascii) : bool := query_char c || one_of ":/?" c.

Definition lower_hex (c : ascii) : bool := one_of "0123456789abcdef" c.

(** [Buffer.from(s, 'hex')], refusing what is no pair of hex digits. *)
Fixpoint from_hex (s : string) : option string :=
  match s with
  | EmptyString => Some ""
  | String h (String l rest) =>
      match Query.unhex h, Query.unhex l, from_hex rest with
      | Some a, Some b, Some r => Some (String (ascii_of_nat (16 * a + b)) r)
      | _, _, _ => None
      end
  | _ => None
  end.

Definition b64_value (c : ascii) : option nat :=
  let n := nat_of_ascii c in
  if between 65 90 n then Some (n - 65)%nat
  else if between 97 122 n then Some (n - 71)%nat
  else if between 48 57 n then Some (n + 4)%nat
  else if Nat.eqb n 43 then Some 62%nat
  else if Nat.eqb n 47 then Some 63%nat
  else None.

(** The bytes a padded base64 text stands for. *)
Fixpoint base64_decode_bytes (s : string) : option (list nat) :=
  match s with
  | EmptyString => Some []
  | String c1 (String c2 (String c3 (String c4 rest))) =>
      match b64_value c1, b64_value c2 with
      | Some d1, Some d2 =>
          if Ascii.eqb c3 "=" then
            if Ascii.eqb c4 "=" && String.eqb rest ""
            then Some [d1 * 4 + d2 / 16]%nat else None
          else
            match b64_value c3 with
            | Some d3 =>
                if Ascii.eqb c4 "=" then
                  if String.eqb rest ""
                  then Some [d1 * 4 + d2 / 16; d2 mod 16 * 16 + d3 / 4]%nat
                  else None
                else
                  match b64_value c4, base64_decode_bytes rest with
                  | Some d4, Some l =>
                      Some (d1 * 4 + d2 / 16 :: d2 mod 16 * 16 + d3 / 4
                              :: d3 mod 4 * 64 + d4 :: l)%nat
                  | _, _ => None
                  end
            | None => None
            end
      | _, _ => None
      end
  | _ => None
  end.

(** [Buffer.from(s, 'base64').toString()] *)
Definition base64_decode (s : string) : option string :=
  option_map (fun l => string_of_list_ascii (List.map ascii_of_nat l))
    (base64_decode_bytes s).

End Codec.

(* ================================================================== *)
(** ** Facts about [refreshAccessToken] *)
(* ================================================================== *)

Section Facts.

Variable CLIENT_ID CLIENT_SECRET : string.
Variable net : network.

Local Open Scope list_scope.

Local Abbreviation refresh := (refreshAccessToken CLIENT_ID CLIENT_SECRET net).
Local Abbreviation tokreq := (token_request CLIENT_ID CLIENT_SECRET).

Lemma requests_app (a b : list event) : requests (a ++ b) = requests a ++ requests b.
Proof.
  induction a as [|e a IH]; simpl; [reflexivity|].
  destruct e; simpl; rewrite IH; reflexivity.
Qed.

Lemma posts_app (a b : list event) : posts (a ++ b) = posts a ++ posts b.
Proof.
  induction a as [|e a IH]; simpl; [reflexivity|].
  destruct e; simpl; rewrite IH; reflexivity.
Qed.

Lemma refreshes_app (a b : list event) :
  refreshes (a ++ b) = (refreshes a + refreshes b)%nat.
Proof.
  induction a as [|e a IH]; simpl; [reflexivity|].
  destruct e; simpl; rewrite IH; reflexivity.
Qed.

Lemma responses_app (a b : list event) : responses (a ++ b) = responses a ++ responses b.
Proof.
  induction a as [|e a IH]; simpl; [reflexivity|].
  destruct e; simpl; rewrite IH; reflexivity.
Qed.

Lemma after_after (w : world) (a b : list event) : after (after w a) b = after w (a ++ b).
Proof. unfold after; simpl. now rewrite app_assoc. Qed.

(** *** [refreshAccessToken], path by path *)

(** Lines 32-35: no refresh token, no call. *)
Lemma refresh_without_token (w : world) :
  truthy (spotifyRefreshToken (creds w)) = false ->
  refresh w = (Returned false, after w [ERefresh]).
Proof.
  intros H. unfold refreshAccessToken, bind, emit, read_refresh, after; simpl.
  rewrite H. reflexivity.
Qed.

(** Lines 36-73: with a refresh token, one call, and the state follows
    from how it settles. *)
Lemma refresh_with_token (w : world) :
  let rt := spotifyRefreshToken (creds w) in
  truthy rt = true ->
  refresh w =
    (Returned (fst (refresh_settles rt (net (trace w ++ [ERefresh]) (tokreq rt)))),
     {| creds := snd (refresh_settles rt (net (trace w ++ [ERefresh]) (tokreq rt)));
        trace := trace w ++ [ERefresh; EPost (tokreq rt)] |}).
Proof.
  intros rt H. subst rt.
  unfold refreshAccessToken, bind, emit, read_refresh, try_catch, axios_post; simpl.
  rewrite H; simpl. fold (tokreq (spotifyRefreshToken (creds w))).
  rewrite <- app_assoc; simpl.
  destruct (net _ _) as [st d|st d|msg]; simpl.
  - unfold get_member, member_opt.
    destruct (member d "access_token") as [a|] eqn:Ha; simpl.
    + assert (exists x, member d "refresh_token" = Some x) as [x Hx].
      { destruct d; simpl in *; try discriminate; eauto. }
      rewrite Hx; simpl. unfold bind; simpl.
      destruct (truthy x); reflexivity.
    + reflexivity.
  - destruct ((st =? 400) && _); reflexivity.
  - reflexivity.
Qed.

(** [refreshAccessToken] catches everything it throws. *)
Lemma refresh_returns (w : world) :
  exists ok w', refresh w = (Returned ok, w').
Proof.
  destruct (truthy (spotifyRefreshToken (creds w))) eqn:H.
  - rewrite (refresh_with_token w H). eauto.
  - rewrite (refresh_without_token w H). eauto.
Qed.

End Facts.

(* ================================================================== *)
(** ** Facts about the handler *)
(* ================================================================== *)

Section Gateway.

Variable CLIENT_ID CLIENT_SECRET : string.
Variable net : network.

Local Open Scope list_scope.

Local Abbreviation refresh := (refreshAccessToken CLIENT_ID CLIENT_SECRET net).
Local Abbreviation tokreq := (token_request CLIENT_ID CLIENT_SECRET).
Local Abbreviation handle := (handler CLIENT_ID CLIENT_SECRET net).
Local Abbreviation fwd := (forward CLIENT_ID CLIENT_SECRET net).

(** What one entry into [refreshAccessToken] adds to the trace. *)
Lemma refresh_trace {w w' : world} {ok : bool} :
  refresh w = (Returned ok, w') ->
  exists es, trace w' = trace w ++ es
             /\ refreshes es = 1%nat /\ requests es = [] /\ responses es = []
             /\ (List.length (posts es) <= 1)%nat.
Proof.
  destruct (truthy (spotifyRefreshToken (creds w))) eqn:H.
  - rewrite (refresh_with_token _ _ net w H). intros E; inversion E; subst; simpl.
    eexists; split; [reflexivity|]. simpl. repeat split; lia.
  - rewrite (refresh_without_token _ _ net w H). intros E; inversion E; subst; simpl.
    eexists; split; [reflexivity|]. simpl. repeat split; lia.
Qed.

(** The second attempt: one call, and whatever comes back goes out. *)
Lemma retry_run (req : request) (w : world) :
  let cfg := retry_config req (spotifyAccessToken (creds w)) in
  retry net req w =
    (Returned tt, after w [ERequest cfg; respond_event (relay_retry (net (trace w) cfg))]).
Proof.
  unfold retry, try_catch, bind, read_access, axios, respond, emit, after; simpl.
  destruct (net _ _) as [st d|st d|msg]; simpl; rewrite <- app_assoc; reflexivity.
Qed.

Lemma reauthenticate_run (req : request) {w w3 : world} {ok : bool} :
  refresh (with_access (JStr "") w) = (Returned ok, w3) ->
  let cfg := retry_config req (spotifyAccessToken (creds w3)) in
  reauthenticate CLIENT_ID CLIENT_SECRET net req w =
    (Returned tt,
     if ok && truthy (spotifyAccessToken (creds w3))
     then after w3 [ERequest cfg; respond_event (relay_retry (net (trace w3) cfg))]
     else after w3 [ERespond 503 reauth_failed]).
Proof.
  intros H cfg. unfold reauthenticate, bind, write_access; simpl.
  change {| creds := _; trace := trace w |} with (with_access (JStr "") w).
  rewrite H. unfold read_access; simpl.
  destruct (ok && truthy (spotifyAccessToken (creds w3))).
  - apply retry_run.
  - reflexivity.
Qed.

(** The first attempt, by the way it settles. *)
Lemma forward_run (req : request) (w : world) :
  let cfg := first_config req (spotifyAccessToken (creds w)) in
  fwd req w =
    match net (trace w) cfg with
    | Fulfilled st d => (Returned tt, after w [ERequest cfg; ERespond st d])
    | RejectedResponse st d =>
        if st =? 401
        then reauthenticate CLIENT_ID CLIENT_SECRET net req (after w [ERequest cfg])
        else (Returned tt, after w [ERequest cfg; ERespond st d])
    | RejectedNoResponse _ =>
        (Returned tt,
         after w [ERequest cfg;
                  ERespond 500 (JObj [("error", JStr "Internal Server Error");
                                      ("message", JStr "Failed to communicate with Spotify.")])])
    end.
Proof.
  unfold forward, try_catch, bind, read_access, axios, respond, emit, after; simpl.
  destruct (net _ _) as [st d|st d|msg]; simpl.
  - rewrite <- app_assoc; reflexivity.
  - destruct (st =? 401); simpl; [reflexivity|]. rewrite <- app_assoc; reflexivity.
  - rewrite <- app_assoc; reflexivity.
Qed.

Lemma handler_forward (req : request) {w w1 : world} :
  first_attempt_from CLIENT_ID CLIENT_SECRET net w w1 -> handle req w = fwd req w1.
Proof.
  intros [H|w1' H R]; unfold handler, bind, read_access; simpl; rewrite H; simpl.
  - reflexivity.
  - rewrite R; reflexivity.
Qed.

(** The handler's first upstream call is the first thing [forward] does,
    and [forward] always runs to its end. *)
Lemma forward_shape (req : request) (w : world) :
  exists wf rest,
    fwd req w = (Returned tt, wf)
    /\ trace wf = trace w ++ ERequest (first_config req (spotifyAccessToken (creds w))) :: rest.
Proof.
  rewrite forward_run.
  destruct (net _ _) as [st d|st d|msg].
  - eexists; eexists; split; reflexivity.
  - destruct (st =? 401).
    + destruct (refresh_returns CLIENT_ID CLIENT_SECRET net
                  (with_access (JStr "")
                     (after w [ERequest (first_config req (spotifyAccessToken (creds w)))])))
        as (ok & w3 & R).
      rewrite (reauthenticate_run req R).
      destruct (refresh_trace R) as (es & T & _).
      simpl in T.
      destruct (ok && truthy (spotifyAccessToken (creds w3)));
        eexists; eexists; (split; [reflexivity|]); simpl; rewrite T;
        rewrite <- !app_assoc; reflexivity.
    + eexists; eexists; split; reflexivity.
  - eexists; eexists; split; reflexivity.
Qed.

(** Every path of the handler ends normally. *)
Lemma handler_returns (req : request) (w : world) :
  exists wf, handle req w = (Returned tt, wf).
Proof.
  destruct (truthy (spotifyAccessToken (creds w))) eqn:H.
  - rewrite (handler_forward req (token_held _ _ _ w H)).
    destruct (forward_shape req w) as (wf & ? & E & _). eauto.
  - destruct (refresh_returns CLIENT_ID CLIENT_SECRET net w) as ([|] & w1 & R).
    + rewrite (handler_forward req (token_refreshed _ _ _ w w1 H R)).
      destruct (forward_shape req w1) as (wf & ? & E & _). eauto.
    + unfold handler, bind, read_access; simpl. rewrite H; simpl. rewrite R; simpl.
      eexists; reflexivity.
Qed.

End Gateway.

(* ================================================================== *)
(** ** Facts about query strings *)
(* ================================================================== *)

Module QueryFacts.

Import Query.

Lemma append_assoc (a b c : string) : (a ++ b) ++ c = a ++ (b ++ c).
Proof. induction a as [|x a IH]; simpl; [reflexivity | now rewrite IH]. Qed.

Lemma occurs_app (c : ascii) (a b : string) :
  occurs c (a ++ b) = occurs c a || occurs c b.
Proof.
  induction a as [|x a IH]; simpl; [reflexivity|].
  rewrite IH. apply orb_assoc.
Qed.

Ltac each_byte c := destruct c as [[] [] [] [] [] [] [] []]; reflexivity.

Lemma decode_encode_byte (c : ascii) (t : string) :
  urldecode (encode_byte c ++ t) = String c (urldecode t).
Proof. each_byte c. Qed.

Lemma encode_byte_no_amp (c : ascii) : occurs "&" (encode_byte c) = false.
Proof. each_byte c. Qed.

Lemma encode_byte_no_eq (c : ascii) : occurs "=" (encode_byte c) = false.
Proof. each_byte c. Qed.

Lemma encode_byte_no_comma (c : ascii) : occurs "," (encode_byte c) = false.
Proof. each_byte c. Qed.

Lemma urldecode_urlencode_app (s t : string) :
  urldecode (urlencode s ++ t) = s ++ urldecode t.
Proof.
  induction s as [|c s IH]; simpl; [reflexivity|].
  rewrite append_assoc, decode_encode_byte, IH. reflexivity.
Qed.

Lemma append_empty (s : string) : s ++ "" = s.
Proof. induction s as [|c s IH]; simpl; [reflexivity | now rewrite IH]. Qed.

Lemma urldecode_urlencode (s : string) : urldecode (urlencode s) = s.
Proof.
  rewrite <- (append_empty (urlencode s)), urldecode_urlencode_app.
  apply append_empty.
Qed.

Lemma urlencode_free (sep : ascii) :
  (forall c, occurs sep (encode_byte c) = false) ->
  forall s, occurs sep (urlencode s) = false.
Proof.
  intros H s. induction s as [|c s IH]; simpl; [reflexivity|].
  rewrite occurs_app, H, IH. reflexivity.
Qed.

Lemma cut_at (sep : ascii) (a b : string) :
  occurs sep a = false -> cut sep (a ++ String sep b) = (a, b).
Proof.
  induction a as [|x a IH]; simpl; intros H.
  - rewrite Ascii.eqb_refl. reflexivity.
  - apply orb_false_iff in H as [Hx Ha]. rewrite Hx, (IH Ha). reflexivity.
Qed.

Lemma split_whole (sep : ascii) (a : string) :
  occurs sep a = false -> split sep a = [a].
Proof.
  induction a as [|x a IH]; simpl; intros H; [reflexivity|].
  apply orb_false_iff in H as [Hx Ha]. rewrite Hx, (IH Ha). reflexivity.
Qed.

Lemma split_at (sep : ascii) (a b : string) :
  occurs sep a = false -> split sep (a ++ String sep b) = a :: split sep b.
Proof.
  induction a as [|x a IH]; simpl; intros H.
  - rewrite Ascii.eqb_refl. reflexivity.
  - apply orb_false_iff in H as [Hx Ha]. rewrite Hx, (IH Ha). reflexivity.
Qed.

Lemma pair_string_no_amp (kv : string * jsval) : occurs "&" (pair_string kv) = false.
Proof.
  unfold pair_string. rewrite !occurs_app.
  rewrite !(urlencode_free "&" encode_byte_no_amp). reflexivity.
Qed.

Lemma pair_string_nonempty (kv : string * jsval) : String.eqb (pair_string kv) "" = false.
Proof.
  apply String.eqb_neq. intros E.
  assert (occurs "=" (pair_string kv) = true) as O.
  { unfold pair_string. rewrite !occurs_app. simpl. apply orb_true_r. }
  rewrite E in O. discriminate.
Qed.

Lemma pair_string_read (kv : string * jsval) :
  (let (k, v) := cut "=" (pair_string kv) in (urldecode k, urldecode v))
  = (fst kv, to_string (snd kv)).
Proof.
  unfold pair_string. change ("=" ++ ?x) with (String "=" x).
  rewrite cut_at by apply (urlencode_free "=" encode_byte_no_eq).
  rewrite !urldecode_urlencode. reflexivity.
Qed.

Lemma toString_unfold (kv : string * jsval) (rest : list (string * jsval)) :
  URLSearchParams_toString (kv :: rest) =
    match rest with
    | [] => pair_string kv
    | _ :: _ => pair_string kv ++ String "&" (URLSearchParams_toString rest)
    end.
Proof. destruct kv as [k v]. destruct rest; reflexivity. Qed.

Lemma parse_one (p : string) :
  occurs "&" p = false -> String.eqb p "" = false -> parse p = [read_pair p].
Proof.
  intros O N. unfold parse. rewrite (split_whole "&" p O). simpl. rewrite N. reflexivity.
Qed.

Lemma parse_more (p s : string) :
  occurs "&" p = false -> String.eqb p "" = false ->
  parse (p ++ String "&" s) = read_pair p :: parse s.
Proof.
  intros O N. unfold parse. rewrite (split_at "&" p s O). simpl. rewrite N. reflexivity.
Qed.

(** Reading back what [URLSearchParams] wrote gives the names and the
    values, in the same order. *)
Lemma parse_toString (q : list (string * jsval)) :
  parse (URLSearchParams_toString q)
  = List.map (fun kv => (fst kv, to_string (snd kv))) q.
Proof.
  induction q as [|kv rest IH]; [reflexivity|].
  rewrite toString_unfold. destruct rest as [|kv' rest'].
  - rewrite (parse_one _ (pair_string_no_amp kv) (pair_string_nonempty kv)).
    unfold read_pair. rewrite pair_string_read. reflexivity.
  - rewrite (parse_more _ _ (pair_string_no_amp kv) (pair_string_nonempty kv)).
    rewrite IH. unfold read_pair. rewrite pair_string_read. reflexivity.
Qed.

(** No comma leaves [URLSearchParams.toString]. *)
Lemma toString_no_comma (q : list (string * jsval)) :
  occurs "," (URLSearchParams_toString q) = false.
Proof.
  induction q as [|kv rest IH]; [reflexivity|].
  rewrite toString_unfold.
  assert (occurs "," (pair_string kv) = false) as P.
  { unfold pair_string. rewrite !occurs_app.
    rewrite !(urlencode_free "," encode_byte_no_comma). reflexivity. }
  destruct rest as [|kv' rest']; [exact P|].
  rewrite occurs_app, P. simpl occurs at 1.
  simpl in IH |- *. exact IH.
Qed.

End QueryFacts.

(* ================================================================== *)
(** ** Facts about alphabets, hex and base64 *)
(* ================================================================== *)

Module CodecFacts.

Import Query Codec.

Lemma every_app (p : ascii -> bool) (a b : string) :
  every p (a ++ b) = every p a && every p b.
Proof.
  induction a as [|c a IH]; simpl; [reflexivity|].
  rewrite IH. apply andb_assoc.
Qed.

Lemma every_occurs (p : ascii -> bool) (c : ascii) (s : string) :
  every p s = true -> p c = false -> occurs c s = false.
Proof.
  intros E P. induction s as [|x s IH]; simpl in *; [reflexivity|].
  apply andb_true_iff in E as [Ex Es]. rewrite (IH Es), orb_false_r.
  destruct (Ascii.eqb_spec x c) as [->|]; [congruence | reflexivity].
Qed.

Lemma every_weaken (p q : ascii -> bool) (s : string) :
  (forall c, p c = true -> q c = true) -> every p s = true -> every q s = true.
Proof.
  intros W. induction s as [|x s IH]; simpl; [reflexivity|].
  intros E. apply andb_true_iff in E as [Ex Es].
  rewrite (W _ Ex), (IH Es). reflexivity.
Qed.

Ltac each_byte c := destruct c as [[] [] [] [] [] [] [] []]; reflexivity.

Lemma encode_byte_query_chars (c : ascii) : every query_char (encode_byte c) = true.
Proof. each_byte c. Qed.

Lemma urlencode_query_chars (s : string) : every query_char (urlencode s) = true.
Proof.
  induction s as [|c s IH]; simpl; [reflexivity|].
  rewrite every_app, encode_byte_query_chars, IH. reflexivity.
Qed.

Lemma toString_query_chars (q : list (string * jsval)) :
  every query_char (URLSearchParams_toString q) = true.
Proof.
  induction q as [|kv rest IH]; [reflexivity|].
  rewrite QueryFacts.toString_unfold.
  assert (every query_char (pair_string kv) = true) as P.
  { unfold pair_string. rewrite !every_app, !urlencode_query_chars. reflexivity. }
  destruct rest as [|kv' rest']; [exact P|].
  rewrite every_app, P. simpl every at 1. simpl in IH |- *. exact IH.
Qed.

Lemma toString_empty (q : list (string * jsval)) :
  String.eqb (URLSearchParams_toString q) "" = true <-> q = [].
Proof.
  split; [|intros ->; reflexivity].
  destruct q as [|kv rest]; [reflexivity|]. intros E.
  apply String.eqb_eq in E.
  assert (occurs "=" (URLSearchParams_toString (kv :: rest)) = true) as O.
  { rewrite QueryFacts.toString_unfold.
    assert (occurs "=" (pair_string kv) = true) as P.
    { unfold pair_string. rewrite !QueryFacts.occurs_app. simpl. apply orb_true_r. }
    destruct rest; [exact P|]. rewrite QueryFacts.occurs_app, P. reflexivity. }
  rewrite E in O. discriminate.
Qed.

(** *** Hex *)

Lemma to_hex_length (s : string) : String.length (Bootstrap.to_hex s) = (2 * String.length s)%nat.
Proof. induction s as [|c s IH]; simpl; [reflexivity | rewrite IH; lia]. Qed.

Lemma to_hex_step (c : ascii) (r : string) :
  exists h l, Bootstrap.to_hex (String c r) = String h (String l (Bootstrap.to_hex r))
              /\ lower_hex h = true /\ lower_hex l = true
              /\ encode_byte h = String h "" /\ encode_byte l = String l ""
              /\ forall x, from_hex (String h (String l x))
                           = option_map (String c) (from_hex x).
Proof.
  destruct c as [[] [] [] [] [] [] [] []];
    eexists; eexists; (split; [reflexivity|]);
    repeat (split; [reflexivity|]); intros x; simpl; destruct (from_hex x); reflexivity.
Qed.

Lemma to_hex_lower (s : string) : every lower_hex (Bootstrap.to_hex s) = true.
Proof.
  induction s as [|c s IH]; [reflexivity|].
  destruct (to_hex_step c s) as (h & l & E & Hh & Hl & _). rewrite E. simpl.
  rewrite Hh, Hl, IH. reflexivity.
Qed.

Lemma to_hex_unescaped (s : string) : urlencode (Bootstrap.to_hex s) = Bootstrap.to_hex s.
Proof.
  induction s as [|c s IH]; [reflexivity|].
  destruct (to_hex_step c s) as (h & l & E & _ & _ & Eh & El & _). rewrite E.
  simpl urlencode. rewrite Eh, El, IH. reflexivity.
Qed.

Lemma from_hex_to_hex (s : string) : from_hex (Bootstrap.to_hex s) = Some s.
Proof.
  induction s as [|c s IH]; [reflexivity|].
  destruct (to_hex_step c s) as (h & l & E & _ & _ & _ & _ & F).
  rewrite E, F, IH. reflexivity.
Qed.

(** *** Base64 *)

Lemma b64_digit_value (d : nat) :
  (d < 64)%nat ->
  b64_value (b64_digit d) = Some d /\ Ascii.eqb (b64_digit d) "=" = false.
Proof.
  intros H.
  do 64 (destruct d as [|d]; [split; reflexivity|]). lia.
Qed.

Lemma decode_one (c1 c2 : ascii) (d1 d2 : nat) :
  b64_value c1 = Some d1 -> b64_value c2 = Some d2 ->
  base64_decode_bytes (String c1 (String c2 "==")) = Some [d1 * 4 + d2 / 16]%nat.
Proof. intros V1 V2. simpl. rewrite V1, V2. reflexivity. Qed.

Lemma decode_two (c1 c2 c3 : ascii) (d1 d2 d3 : nat) :
  b64_value c1 = Some d1 -> b64_value c2 = Some d2 -> b64_value c3 = Some d3 ->
  Ascii.eqb c3 "=" = false ->
  base64_decode_bytes (String c1 (String c2 (String c3 "=")))
  = Some [d1 * 4 + d2 / 16; d2 mod 16 * 16 + d3 / 4]%nat.
Proof. intros V1 V2 V3 N3. simpl. rewrite V1, V2, V3, N3. reflexivity. Qed.

Lemma decode_three (c1 c2 c3 c4 : ascii) (rest : string) (d1 d2 d3 d4 : nat) :
  b64_value c1 = Some d1 -> b64_value c2 = Some d2 ->
  b64_value c3 = Some d3 -> b64_value c4 = Some d4 ->
  Ascii.eqb c3 "=" = false -> Ascii.eqb c4 "=" = false ->
  base64_decode_bytes (String c1 (String c2 (String c3 (String c4 rest))))
  = option_map (fun l => d1 * 4 + d2 / 16 :: d2 mod 16 * 16 + d3 / 4
                           :: d3 mod 4 * 64 + d4 :: l)%nat
      (base64_decode_bytes rest).
Proof.
  intros V1 V2 V3 V4 N3 N4. cbn [base64_decode_bytes].
  rewrite V1, V2, V3, V4, N3, N4.
  destruct (base64_decode_bytes rest); reflexivity.
Qed.

Lemma base64_bytes_read_back (n : nat) :
  forall l, (List.length l < n)%nat -> Forall (fun b => (b < 256)%nat) l ->
            base64_decode_bytes (base64_bytes l) = Some l.
Proof.
  induction n as [|n IH]; intros l L B; [lia|].
  destruct l as [|a [|b [|c rest]]].
  - reflexivity.
  - inversion B as [|? ? Ha _]; subst.
    cbn [base64_bytes].
    destruct (b64_digit_value (a / 4)) as [V1 _]; [lia|].
    destruct (b64_digit_value (a mod 4 * 16)) as [V2 _]; [lia|].
    rewrite (decode_one _ _ _ _ V1 V2). f_equal. f_equal. lia.
  - inversion B as [|? ? Ha B1]; subst. inversion B1 as [|? ? Hb _]; subst.
    cbn [base64_bytes].
    destruct (b64_digit_value (a / 4)) as [V1 _]; [lia|].
    destruct (b64_digit_value (a mod 4 * 16 + b / 16)) as [V2 _]; [lia|].
    destruct (b64_digit_value (b mod 16 * 4)) as [V3 N3]; [lia|].
    rewrite (decode_two _ _ _ _ _ _ V1 V2 V3 N3). f_equal. f_equal; [lia|]. f_equal. lia.
  - inversion B as [|? ? Ha B1]; subst. inversion B1 as [|? ? Hb B2]; subst.
    inversion B2 as [|? ? Hc B3]; subst.
    cbn [base64_bytes].
    destruct (b64_digit_value (a / 4)) as [V1 _]; [lia|].
    destruct (b64_digit_value (a mod 4 * 16 + b / 16)) as [V2 _]; [lia|].
    destruct (b64_digit_value (b mod 16 * 4 + c / 64)) as [V3 N3]; [lia|].
    destruct (b64_digit_value (c mod 64)) as [V4 N4]; [lia|].
    rewrite (decode_three _ _ _ _ _ _ _ _ _ V1 V2 V3 V4 N3 N4).
    rewrite IH; [|simpl in L; lia | exact B3]. cbn [option_map].
    f_equal. f_equal; [lia|]. f_equal; [lia|]. f_equal. lia.
Qed.

Lemma base64_read_back (s : string) : base64_decode (base64 s) = Some s.
Proof.
  unfold base64_decode, base64.
  rewrite (base64_bytes_read_back (S (List.length (List.map nat_of_ascii (list_ascii_of_string s))))).
  - simpl. f_equal. rewrite List.map_map.
    rewrite (List.map_ext _ (fun c => c)) by apply ascii_nat_embedding.
    rewrite List.map_id. apply string_of_list_ascii_of_string.
  - lia.
  - apply Forall_forall. intros b I. apply in_map_iff in I as (c & <- & _).
    apply nat_ascii_bounded.
Qed.

End CodecFacts.

(* ================================================================== *)
(** ** Facts about line 93 and the two halves of a refresh *)
(* ================================================================== *)

Section LineByLineFacts.

Variable CLIENT_ID CLIENT_SECRET : string.
Variable net : network.

Local Open Scope list_scope.

Local Abbreviation refresh := (refreshAccessToken CLIENT_ID CLIENT_SECRET net).
Local Abbreviation tokreq := (token_request CLIENT_ID CLIENT_SECRET).
Local Abbreviation handle := (handler CLIENT_ID CLIENT_SECRET net).
Local Abbreviation handle93 := (handler_line_93 CLIENT_ID CLIENT_SECRET net).
Local Abbreviation fwd := (forward CLIENT_ID CLIENT_SECRET net).
Local Abbreviation first_from := (first_attempt_from CLIENT_ID CLIENT_SECRET net).

(** Where line 93 returns, the two handlers are one. *)
Lemma handler_line_93_converts (req : request) (w : world) :
  query_converts req = true -> handle93 req w = handle req w.
Proof.
  intros Q. unfold handler_line_93, handler, build_query, bind, read_access; simpl.
  rewrite Q.
  destruct (negb (truthy (spotifyAccessToken (creds w)))); [|reflexivity].
  destruct (refresh w) as [[ok|e] w1]; [|reflexivity].
  destruct (negb ok); reflexivity.
Qed.

(** Where it throws, the handler stops there: in the world in which the
    first attempt would have been made. *)
Lemma handler_line_93_throws (req : request) (w w1 : world) :
  query_converts req = false -> first_from w w1 ->
  exists err, handle93 req w = (Thrown err, w1).
Proof.
  intros Q [H|w1' H R];
    unfold handler_line_93, build_query, bind, read_access; simpl; rewrite Q, H; simpl.
  - eexists; reflexivity.
  - rewrite R. simpl. eexists; reflexivity.
Qed.

(** Run without interruption, the two halves are [refreshAccessToken]. *)
Lemma refresh_in_two_halves (w : world) :
  refresh w =
    match refresh_until_await CLIENT_ID CLIENT_SECRET w with
    | (Returned (Some cfg), w1) =>
        refresh_from_await (net (trace w ++ [ERefresh]) cfg) w1
    | (Returned None, w1) => (Returned false, w1)
    | (Thrown e, w1) => (Thrown e, w1)
    end.
Proof.
  unfold refreshAccessToken, refresh_until_await, refresh_from_await,
    bind, emit, read_refresh, try_catch, axios_post; simpl.
  destruct (truthy (spotifyRefreshToken (creds w))); simpl; [|reflexivity].
  fold (tokreq (spotifyRefreshToken (creds w))).
  destruct (net _ _) as [st d|st d|msg]; reflexivity.
Qed.

(** The upstream calls of [forward]: the first attempt, and at most one
    more, which is the retry. *)
Lemma forward_calls (req : request) (w : world) :
  exists wf rest,
    fwd req w = (Returned tt, wf)
    /\ trace wf = trace w ++ ERequest (first_config req (spotifyAccessToken (creds w))) :: rest
    /\ (requests rest = []
        \/ exists token, requests rest = [retry_config req token]).
Proof.
  rewrite forward_run.
  destruct (net _ _) as [st d|st d|msg].
  - eexists; eexists. split; [reflexivity|]. split; [reflexivity|]. left; reflexivity.
  - destruct (st =? 401).
    + destruct (refresh_returns CLIENT_ID CLIENT_SECRET net
                  (with_access (JStr "")
                     (after w [ERequest (first_config req (spotifyAccessToken (creds w)))])))
        as (ok & w3 & R).
      rewrite (reauthenticate_run _ _ _ req R).
      destruct (refresh_trace _ _ _ R) as (es & T & _ & Hq & _).
      simpl in T.
      destruct (ok && truthy (spotifyAccessToken (creds w3))).
      * eexists; eexists. split; [reflexivity|]. simpl. rewrite T, <- !app_assoc.
        split; [reflexivity|]. right. exists (spotifyAccessToken (creds w3)).
        rewrite requests_app, Hq. simpl.
        destruct (relay_retry (net (trace w3) (retry_config req (spotifyAccessToken (creds w3)))));
          reflexivity.
      * eexists; eexists. split; [reflexivity|]. simpl. rewrite T, <- !app_assoc.
        split; [reflexivity|]. left. rewrite requests_app, Hq. reflexivity.
    + eexists; eexists. split; [reflexivity|]. split; [reflexivity|]. left; reflexivity.
  - eexists; eexists. split; [reflexivity|]. split; [reflexivity|]. left; reflexivity.
Qed.

End LineByLineFacts.

(* ================================================================== *)
(** ** The gateway's contract *)
(* ================================================================== *)

Section GatewayContract.

Variable CLIENT_ID CLIENT_SECRET : string.
Variable net : network.

Local Open Scope list_scope.

Local Abbreviation refresh := (refreshAccessToken CLIENT_ID CLIENT_SECRET net).
Local Abbreviation handle := (handler CLIENT_ID CLIENT_SECRET net).
Local Abbreviation first_from := (first_attempt_from CLIENT_ID CLIENT_SECRET net).



(** C8.  When the first upstream call is answered with an error status
    other than 401, the response sent to the client carries that status
    and that body, and it is the only thing that follows the call: no
    entry into [refreshAccessToken], no second call, the tokens as they
    were. *)
Theorem C8_other_statuses_relayed (req : request) (w w1 : world) (st : Z) (d : jsval) :
  first_from w w1 ->
  let cfg1 := first_config req (spotifyAccessToken (creds w1)) in
  net (trace w1) cfg1 = RejectedResponse st d ->
  (st =? 401) = false ->
  handle req w = (Returned tt, after w1 [ERequest cfg1; ERespond st d]).
Proof.
  intros F cfg1 N S.
  rewrite (handler_forward _ _ _ req F), forward_run. fold cfg1. rewrite N, S. reflexivity.
Qed.


End GatewayContract.

(* ================================================================== *)
(** ** The credential manager's contract *)
(* ================================================================== *)

Section CredentialManager.

Variable CLIENT_ID CLIENT_SECRET : string.
Variable net : network.

Local Open Scope list_scope.

Local Abbreviation refresh := (refreshAccessToken CLIENT_ID CLIENT_SECRET net).
Local Abbreviation tokreq := (token_request CLIENT_ID CLIENT_SECRET).
Local Abbreviation handle := (handler CLIENT_ID CLIENT_SECRET net).
Local Abbreviation serving := (serve CLIENT_ID CLIENT_SECRET net).

(** A handler cannot bring a missing refresh token back, and does not
    call the token endpoint while it is missing. *)
Lemma handler_without_refresh_token (req : request) (w : world) :
  truthy (spotifyRefreshToken (creds w)) = false ->
  exists wf es,
    handle req w = (Returned tt, wf)
    /\ trace wf = trace w ++ es /\ posts es = []
    /\ spotifyRefreshToken (creds wf) = spotifyRefreshToken (creds w).
Proof.
  intros H.
  destruct (truthy (spotifyAccessToken (creds w))) eqn:A.
  - rewrite (handler_forward _ _ _ req (token_held _ _ _ w A)), forward_run.
    destruct (net _ _) as [st d|st d|msg].
    + eexists; eexists; repeat split.
    + destruct (st =? 401).
      * rewrite (reauthenticate_run _ _ _ req
                   (refresh_without_token _ _ net (with_access (JStr "") (after w _)) H)).
        simpl. eexists; eexists. split; [reflexivity|].
        simpl. rewrite <- !app_assoc. repeat split.
      * eexists; eexists; repeat split.
    + eexists; eexists; repeat split.
  - unfold handler, bind, read_access; simpl. rewrite A; simpl.
    rewrite (refresh_without_token _ _ net w H). simpl.
    eexists; eexists. split; [reflexivity|]. simpl. rewrite <- !app_assoc. repeat split.
Qed.

Lemma serve_without_refresh_token (reqs : list request) (w : world) :
  truthy (spotifyRefreshToken (creds w)) = false ->
  exists wf es,
    serving reqs w = (Returned tt, wf)
    /\ trace wf = trace w ++ es /\ posts es = []
    /\ spotifyRefreshToken (creds wf) = spotifyRefreshToken (creds w).
Proof.
  revert w. induction reqs as [|req reqs IH]; intros w H.
  - exists w, []. simpl. rewrite app_nil_r. repeat split.
  - destruct (handler_without_refresh_token req w H) as (w1 & es1 & E1 & T1 & P1 & K1).
    destruct (IH w1) as (wf & es2 & E2 & T2 & P2 & K2); [rewrite K1; exact H|].
    exists wf, (es1 ++ es2). simpl. unfold bind. rewrite E1. split; [exact E2|].
    rewrite T2, T1, app_assoc, posts_app, P1, P2, K2, K1. repeat split.
Qed.

(** C2, as amended.  With a [null] (or absent) refresh token
    [refreshAccessToken] returns [false] at once: no call, the tokens
    untouched.  A refresh that the token endpoint answers with 400 and
    [invalid_grant] leaves the refresh token [null].  From a [null]
    refresh token on, whatever requests are served one after the other,
    the token endpoint is never called, the refresh token is still
    [null] afterwards, and the next refresh fails at once again.  ([serve]
    lets no handler start before the one before it has ended; a refresh
    still awaiting its answer when the token is nulled is outside it.) *)
Theorem C2_null_refresh_token_is_final :
  (forall w : world,
      spotifyRefreshToken (creds w) = JNull
      \/ spotifyRefreshToken (creds w) = JUndefined ->
      refresh w = (Returned false, after w [ERefresh]))
  /\ (forall (w : world) (d : jsval),
         truthy (spotifyRefreshToken (creds w)) = true ->
         net (trace w ++ [ERefresh]) (tokreq (spotifyRefreshToken (creds w)))
           = RejectedResponse 400 d ->
         member_opt d "error" = JStr "invalid_grant" ->
         exists w1,
           refresh w = (Returned false, w1)
           /\ creds w1 = {| spotifyAccessToken := JStr "";
                            spotifyRefreshToken := JNull |})
  /\ (forall (w : world) (reqs : list request),
         spotifyRefreshToken (creds w) = JNull ->
         exists wf es,
           serving reqs w = (Returned tt, wf)
           /\ trace wf = trace w ++ es /\ posts es = []
           /\ spotifyRefreshToken (creds wf) = JNull
           /\ refresh wf = (Returned false, after wf [ERefresh])).
Proof.
  split; [|split].
  - intros w H. apply refresh_without_token. destruct H as [-> | ->]; reflexivity.
  - intros w d H N E.
    rewrite (refresh_with_token _ _ net w H), N. simpl. rewrite E. simpl.
    eexists; split; reflexivity.
  - intros w reqs H.
    destruct (serve_without_refresh_token reqs w) as (wf & es & E & T & P & K);
      [rewrite H; reflexivity|].
    exists wf, es. rewrite K, H. repeat (split; [assumption || reflexivity|]).
    apply refresh_without_token. rewrite K, H. reflexivity.
Qed.

(** C4.  When [refreshAccessToken] returns [true], the token endpoint has
    answered with a response whose [access_token] is now the stored access
    token; the stored refresh token is the response's [refresh_token] when
    the response carries a (truthy) one, and the one stored before when it
    does not, in particular when the response has no such field. *)
Theorem C4_success_stores_and_rotates (w w' : world) :
  refresh w = (Returned true, w') ->
  let rt := spotifyRefreshToken (creds w) in
  exists (st : Z) (d : jsval),
    net (trace w ++ [ERefresh]) (tokreq rt) = Fulfilled st d
    /\ member d "access_token" = Some (spotifyAccessToken (creds w'))
    /\ (truthy (member_opt d "refresh_token") = true ->
        spotifyRefreshToken (creds w') = member_opt d "refresh_token")
    /\ (truthy (member_opt d "refresh_token") = false ->
        spotifyRefreshToken (creds w') = rt)
    /\ (forall props, d = JObj props -> lookup "refresh_token" props = None ->
        spotifyRefreshToken (creds w') = rt).
Proof.
  intros R rt.
  destruct (truthy rt) eqn:H.
  - rewrite (refresh_with_token _ _ net w H) in R. fold rt in R.
    destruct (net (trace w ++ [ERefresh]) (tokreq rt)) as [st d|st d|msg];
      simpl in R; try discriminate.
    destruct (member d "access_token") as [a|] eqn:A; simpl in R; try discriminate.
    inversion R; subst w'; clear R. simpl.
    exists st, d. split; [reflexivity|]. split; [exact A|].
    split; [intros ->; reflexivity|]. split; [intros ->; reflexivity|].
    intros props -> L. unfold member_opt; simpl. rewrite L. reflexivity.
  - rewrite (refresh_without_token _ _ net w H) in R. discriminate.
Qed.


(** C9, as amended.  When the token endpoint's call is fulfilled with a
    body that is neither [null] nor [undefined], [refreshAccessToken]
    returns [true] whether or not the body has an [access_token]; the
    stored access token is that member, and when the body has none it is
    [undefined], which is falsy. *)
Theorem C9_fulfilled_is_success (w : world) (st : Z) (d : jsval) :
  let rt := spotifyRefreshToken (creds w) in
  truthy rt = true ->
  net (trace w ++ [ERefresh]) (tokreq rt) = Fulfilled st d ->
  d <> JNull -> d <> JUndefined ->
  exists w',
    refresh w = (Returned true, w')
    /\ member d "access_token" = Some (spotifyAccessToken (creds w'))
    /\ (forall props, d = JObj props -> lookup "access_token" props = None ->
        spotifyAccessToken (creds w') = JUndefined
        /\ truthy (spotifyAccessToken (creds w')) = false).
Proof.
  intros rt H N D1 D2.
  rewrite (refresh_with_token _ _ net w H). fold rt. rewrite N. simpl.
  destruct (member d "access_token") as [a|] eqn:A.
  - simpl. eexists. split; [reflexivity|]. simpl. split; [reflexivity|].
    intros props -> L. simpl in A. rewrite L in A. inversion A. split; reflexivity.
  - destruct d; simpl in A; try discriminate; contradiction.
Qed.

End CredentialManager.

(* ================================================================== *)
(** ** What reaches the upstream: the query string and the body *)
(* ================================================================== *)

Section Forwarding.

Variable CLIENT_ID CLIENT_SECRET : string.
Variable net : network.

Local Open Scope list_scope.

Local Abbreviation handle93 := (handler_line_93 CLIENT_ID CLIENT_SECRET net).
Local Abbreviation first_from := (first_attempt_from CLIENT_ID CLIENT_SECRET net).


End Forwarding.

(* ================================================================== *)
(** ** The service as a whole *)
(* ================================================================== *)

Section Operation.

Variable CLIENT_ID CLIENT_SECRET : string.
Variable net : network.

Local Open Scope list_scope.

Local Abbreviation refresh := (refreshAccessToken CLIENT_ID CLIENT_SECRET net).
Local Abbreviation handle := (handler CLIENT_ID CLIENT_SECRET net).
Local Abbreviation fwd := (forward CLIENT_ID CLIENT_SECRET net).
Local Abbreviation serving := (serve CLIENT_ID CLIENT_SECRET net).
Local Abbreviation first_from := (first_attempt_from CLIENT_ID CLIENT_SECRET net).

(** What [forward] adds to a trace: one response, one or two upstream
    calls, at most one refresh. *)
Lemma forward_events (req : request) (w : world) :
  exists wf es,
    fwd req w = (Returned tt, wf)
    /\ trace wf = trace w ++ es
    /\ List.length (responses es) = 1%nat
    /\ (1 <= List.length (requests es) <= 2)%nat
    /\ (refreshes es <= 1)%nat.
Proof.
  rewrite forward_run.
  destruct (net _ _) as [st d|st d|msg].
  - eexists; eexists. split; [reflexivity|]. split; [reflexivity|]. simpl. lia.
  - destruct (st =? 401).
    + destruct (refresh_returns CLIENT_ID CLIENT_SECRET net
                  (with_access (JStr "")
                     (after w [ERequest (first_config req (spotifyAccessToken (creds w)))])))
        as (ok & w3 & R).
      rewrite (reauthenticate_run _ _ _ req R).
      destruct (refresh_trace _ _ _ R) as (es & T & Hr & Hq & Hs & _).
      simpl in T.
      destruct (ok && truthy (spotifyAccessToken (creds w3)));
        eexists; eexists; (split; [reflexivity|]); simpl; rewrite T;
        rewrite <- !app_assoc; (split; [reflexivity|]); simpl;
        rewrite ?responses_app, ?requests_app, ?refreshes_app, ?length_app, Hq, Hs, Hr;
        simpl; try destruct (relay_retry _); simpl; lia.
    + eexists; eexists. split; [reflexivity|]. split; [reflexivity|]. simpl. lia.
  - eexists; eexists. split; [reflexivity|]. split; [reflexivity|]. simpl. lia.
Qed.

(** What [handler] adds to a trace: one response, after at most two
    upstream calls and at most two refreshes. *)
Lemma handler_events (req : request) (w : world) :
  exists wf es,
    handle req w = (Returned tt, wf)
    /\ trace wf = trace w ++ es
    /\ List.length (responses es) = 1%nat
    /\ (List.length (requests es) <= 2)%nat
    /\ (refreshes es <= 2)%nat.
Proof.
  destruct (truthy (spotifyAccessToken (creds w))) eqn:H.
  - rewrite (handler_forward _ _ _ req (token_held _ _ _ w H)).
    destruct (forward_events req w) as (wf & es & E & T & A & B & C).
    exists wf, es. repeat (split; [assumption|]). lia.
  - destruct (refresh_returns CLIENT_ID CLIENT_SECRET net w) as ([|] & w1 & R);
      destruct (refresh_trace _ _ _ R) as (es0 & T0 & Hr & Hq & Hs & _).
    + rewrite (handler_forward _ _ _ req (token_refreshed _ _ _ w w1 H R)).
      destruct (forward_events req w1) as (wf & es & E & T & A & B & C).
      exists wf, (es0 ++ es). split; [exact E|].
      rewrite T, T0, app_assoc. split; [reflexivity|].
      rewrite responses_app, requests_app, refreshes_app, !length_app, Hs, Hq, Hr.
      simpl. lia.
    + unfold handler, bind, read_access; simpl. rewrite H; simpl. rewrite R; simpl.
      eexists; exists (es0 ++ [ERespond 503 auth_failed]).
      split; [reflexivity|]. simpl. rewrite T0, <- app_assoc. split; [reflexivity|].
      rewrite responses_app, requests_app, refreshes_app, !length_app, Hs, Hq, Hr.
      simpl. lia.
Qed.


(** X2.  A fulfilled upstream call is relayed: its status and its body
    are what the client gets, and nothing else follows the call. *)
Theorem upstream_success_is_relayed (req : request) (w w1 : world) (st : Z) (d : jsval) :
  first_from w w1 ->
  let cfg1 := first_config req (spotifyAccessToken (creds w1)) in
  net (trace w1) cfg1 = Fulfilled st d ->
  handle req w = (Returned tt, after w1 [ERequest cfg1; ERespond st d]).
Proof.
  intros F cfg1 N.
  rewrite (handler_forward _ _ _ req F), forward_run. fold cfg1. rewrite N. reflexivity.
Qed.

(** X3.  An upstream call that gets no response at all is answered 500
    with the fixed body, without a refresh or a second call. *)
Theorem upstream_silence_is_500 (req : request) (w w1 : world) (msg : string) :
  first_from w w1 ->
  let cfg1 := first_config req (spotifyAccessToken (creds w1)) in
  net (trace w1) cfg1 = RejectedNoResponse msg ->
  handle req w =
    (Returned tt,
     after w1 [ERequest cfg1;
               ERespond 500 (JObj [("error", JStr "Internal Server Error");
                                   ("message", JStr "Failed to communicate with Spotify.")])]).
Proof.
  intros F cfg1 N.
  rewrite (handler_forward _ _ _ req F), forward_run. fold cfg1. rewrite N. reflexivity.
Qed.

(** *** The tokens along a run *)

Lemma settled_cleared (w : world) :
  settled (creds w) -> settled (creds (with_access (JStr "") w)).
Proof.
  intros [H|[H _]]; [left; exact H | right; split; [exact H | reflexivity]].
Qed.

Lemma refresh_settled (w w' : world) (ok : bool) :
  settled (creds w) -> refresh w = (Returned ok, w') -> settled (creds w').
Proof.
  intros S R.
  destruct (truthy (spotifyRefreshToken (creds w))) eqn:H.
  - rewrite (refresh_with_token _ _ net w H) in R. inversion R; subst; clear R. simpl.
    destruct (net _ _) as [st d|st d|msg]; simpl.
    + destruct (member d "access_token"); simpl; [|left; exact H].
      left. destruct (truthy (member_opt d "refresh_token")) eqn:T; [exact T | exact H].
    + destruct ((st =? 400) && _); [right; split; reflexivity | left; exact H].
    + left; exact H.
  - rewrite (refresh_without_token _ _ net w H) in R. inversion R; subst. exact S.
Qed.

Lemma forward_settled (req : request) (w wf : world) :
  settled (creds w) -> fwd req w = (Returned tt, wf) -> settled (creds wf).
Proof.
  intros S. rewrite forward_run.
  destruct (net _ _) as [st d|st d|msg].
  - intros E; inversion E; subst. exact S.
  - destruct (st =? 401).
    + destruct (refresh_returns CLIENT_ID CLIENT_SECRET net
                  (with_access (JStr "")
                     (after w [ERequest (first_config req (spotifyAccessToken (creds w)))])))
        as (ok & w3 & R).
      rewrite (reauthenticate_run _ _ _ req R).
      pose proof (refresh_settled _ _ _ (settled_cleared (after w _) S) R) as S3.
      destruct (ok && truthy (spotifyAccessToken (creds w3)));
        intros E; inversion E; subst; exact S3.
    + intros E; inversion E; subst. exact S.
  - intros E; inversion E; subst. exact S.
Qed.

Lemma handler_settled (req : request) (w wf : world) :
  settled (creds w) -> handle req w = (Returned tt, wf) -> settled (creds wf).
Proof.
  intros S.
  destruct (truthy (spotifyAccessToken (creds w))) eqn:H.
  - rewrite (handler_forward _ _ _ req (token_held _ _ _ w H)). apply forward_settled, S.
  - destruct (refresh_returns CLIENT_ID CLIENT_SECRET net w) as ([|] & w1 & R);
      pose proof (refresh_settled _ _ _ S R) as S1.
    + rewrite (handler_forward _ _ _ req (token_refreshed _ _ _ w w1 H R)).
      apply forward_settled, S1.
    + unfold handler, bind, read_access; simpl. rewrite H; simpl. rewrite R; simpl.
      intros E; inversion E; subst. exact S1.
Qed.

Lemma serve_settled (reqs : list request) (w wf : world) :
  settled (creds w) -> serving reqs w = (Returned tt, wf) -> settled (creds wf).
Proof.
  revert w. induction reqs as [|req reqs IH]; intros w S; simpl.
  - intros E; inversion E; subst. exact S.
  - unfold bind.
    destruct (handler_returns CLIENT_ID CLIENT_SECRET net req w) as (w1 & E1).
    rewrite E1. apply IH. exact (handler_settled req w w1 S E1).
Qed.

(** X4.  In a run that starts with a refresh token, first refreshes and
    then serves any requests: once the refresh token is [null], the next
    request is answered 503 at once, with no call to the upstream and none
    to the token endpoint. *)
Theorem null_refresh_token_means_503
    (SPOTIFY_REFRESH_TOKEN : string) (reqs : list request) (w : world) (req : request) :
  SPOTIFY_REFRESH_TOKEN <> "" ->
  main CLIENT_ID CLIENT_SECRET net reqs (startup SPOTIFY_REFRESH_TOKEN) = (Returned tt, w) ->
  spotifyRefreshToken (creds w) = JNull ->
  handle req w = (Returned tt, after w [ERefresh; ERespond 503 auth_failed]).
Proof.
  intros T M N.
  assert (settled (creds w)) as S.
  { unfold main, bind in M.
    destruct (refresh_returns CLIENT_ID CLIENT_SECRET net (startup SPOTIFY_REFRESH_TOKEN))
      as (ok & w0 & R).
    rewrite R in M.
    apply (serve_settled reqs w0 w); [|exact M].
    apply (refresh_settled _ _ _) with (2 := R).
    left. simpl. apply String.eqb_neq in T. rewrite T. reflexivity. }
  destruct S as [S|[_ A]]; [rewrite N in S; discriminate|].
  unfold handler, bind, read_access; simpl. rewrite A; simpl.
  rewrite refresh_without_token by (rewrite N; reflexivity).
  simpl. unfold respond, emit, after; simpl. rewrite <- app_assoc. reflexivity.
Qed.

End Operation.

(* ================================================================== *)
(** ** The proxy between requests *)
(* ================================================================== *)

(** Where a call may go: an upstream call to a URL under the API's base,
    with the 15-second timeout and an [Authorization] header first; a
    token call as [refreshAccessToken] builds it. *)
Definition aimed (CLIENT_ID CLIENT_SECRET : string) (e : event) : Prop :=
  match e with
  | ERequest cfg =>
      String.prefix "https://api.spotify.com/v1/" (cfg_url cfg) = true
      /\ cfg_timeout cfg = 15000
      /\ exists token, List.hd_error (cfg_headers cfg) = Some (bearer token)
  | EPost cfg => exists rt, cfg = token_request CLIENT_ID CLIENT_SECRET rt
  | ERefresh | ERespond _ _ => True
  end.

Section BetweenRequests.

Variable CLIENT_ID CLIENT_SECRET : string.
Variable net : network.

Local Open Scope list_scope.

Local Abbreviation refresh := (refreshAccessToken CLIENT_ID CLIENT_SECRET net).
Local Abbreviation tokreq := (token_request CLIENT_ID CLIENT_SECRET).
Local Abbreviation handle := (handler CLIENT_ID CLIENT_SECRET net).
Local Abbreviation fwd := (forward CLIENT_ID CLIENT_SECRET net).
Local Abbreviation serving := (serve CLIENT_ID CLIENT_SECRET net).
Local Abbreviation well_aimed := (aimed CLIENT_ID CLIENT_SECRET).

Lemma prefix_app (p s : string) : String.prefix p (p ++ s) = true.
Proof.
  induction p as [|c p IH]; simpl; [destruct s; reflexivity|].
  destruct (ascii_dec c c) as [_|N]; [exact IH | contradiction].
Qed.

Lemma spotifyUrl_prefix (req : request) :
  String.prefix "https://api.spotify.com/v1/" (spotifyUrl req) = true.
Proof. unfold spotifyUrl. apply prefix_app. Qed.

Lemma first_config_aimed (req : request) (token : jsval) :
  well_aimed (ERequest (first_config req token)).
Proof.
  unfold aimed.
  split; [exact (spotifyUrl_prefix req) | split; [reflexivity | eexists; reflexivity]].
Qed.

Lemma retry_config_aimed (req : request) (token : jsval) :
  well_aimed (ERequest (retry_config req token)).
Proof.
  unfold aimed.
  split; [exact (spotifyUrl_prefix req) | split; [reflexivity | eexists; reflexivity]].
Qed.

Ltac aim :=
  repeat first [ assumption | exact I | apply Forall_nil | apply Forall_cons
               | apply Forall_app; split | eexists; reflexivity ].

Lemma refresh_aimed (w w' : world) (ok : bool) :
  refresh w = (Returned ok, w') ->
  exists es, trace w' = trace w ++ es /\ Forall well_aimed es.
Proof.
  destruct (truthy (spotifyRefreshToken (creds w))) eqn:H.
  - rewrite (refresh_with_token _ _ net w H). intros E; inversion E; subst; simpl.
    eexists. split; [reflexivity|]. aim.
  - rewrite (refresh_without_token _ _ net w H). intros E; inversion E; subst; simpl.
    eexists. split; [reflexivity|]. aim.
Qed.

Lemma forward_aimed (req : request) (w : world) :
  exists wf es,
    fwd req w = (Returned tt, wf) /\ trace wf = trace w ++ es /\ Forall well_aimed es.
Proof.
  rewrite forward_run.
  pose proof (first_config_aimed req (spotifyAccessToken (creds w))) as A1.
  destruct (net _ _) as [st d|st d|msg].
  - eexists; eexists. split; [reflexivity|]. split; [reflexivity|]. aim.
  - destruct (st =? 401).
    + destruct (refresh_returns CLIENT_ID CLIENT_SECRET net
                  (with_access (JStr "")
                     (after w [ERequest (first_config req (spotifyAccessToken (creds w)))])))
        as (ok & w3 & R).
      rewrite (reauthenticate_run _ _ _ req R).
      destruct (refresh_aimed _ _ _ R) as (es & T & A).
      simpl in T.
      pose proof (retry_config_aimed req (spotifyAccessToken (creds w3))) as A2.
      destruct (ok && truthy (spotifyAccessToken (creds w3)));
        eexists; eexists; (split; [reflexivity|]); simpl; rewrite T;
        rewrite <- !app_assoc; (split; [reflexivity|]); simpl; aim.
    + eexists; eexists. split; [reflexivity|]. split; [reflexivity|]. aim.
  - eexists; eexists. split; [reflexivity|]. split; [reflexivity|]. aim.
Qed.

Lemma handler_aimed (req : request) (w : world) :
  exists wf es,
    handle req w = (Returned tt, wf) /\ trace wf = trace w ++ es /\ Forall well_aimed es.
Proof.
  destruct (truthy (spotifyAccessToken (creds w))) eqn:H.
  - rewrite (handler_forward _ _ _ req (token_held _ _ _ w H)). apply forward_aimed.
  - destruct (refresh_returns CLIENT_ID CLIENT_SECRET net w) as ([|] & w1 & R);
      destruct (refresh_aimed _ _ _ R) as (es0 & T0 & A0).
    + rewrite (handler_forward _ _ _ req (token_refreshed _ _ _ w w1 H R)).
      destruct (forward_aimed req w1) as (wf & es & E & T & A).
      exists wf, (es0 ++ es). split; [exact E|].
      rewrite T, T0, app_assoc. split; [reflexivity|]. aim.
    + unfold handler, bind, read_access; simpl. rewrite H; simpl. rewrite R; simpl.
      eexists; exists (es0 ++ [ERespond 503 auth_failed]).
      split; [reflexivity|]. simpl. rewrite T0, <- app_assoc. split; [reflexivity|]. aim.
Qed.

(** X5.  Whatever requests are served and whatever the network answers,
    every upstream call goes to a URL under [https://api.spotify.com/v1/]
    with the 15-second timeout and the [Authorization] header first, and
    every other call is the token call of [refreshAccessToken]. *)
Theorem calls_are_well_aimed (reqs : list request) (w : world) :
  exists wf es,
    serving reqs w = (Returned tt, wf)
    /\ trace wf = trace w ++ es
    /\ Forall well_aimed es.
Proof.
  revert w. induction reqs as [|req reqs IH]; intros w.
  - exists w, []. simpl. rewrite app_nil_r. repeat split. constructor.
  - destruct (handler_aimed req w) as (w1 & es1 & E1 & T1 & A1).
    destruct (IH w1) as (wf & es2 & E2 & T2 & A2).
    exists wf, (es1 ++ es2). simpl. unfold bind. rewrite E1. split; [exact E2|].
    rewrite T2, T1, app_assoc. split; [reflexivity|]. aim.
Qed.


(** X7.  A refresh that fails for another reason than [invalid_grant]
    is tried again by the next request, with the same refresh token:
    that request starts by entering [refreshAccessToken] and calling the
    token endpoint with the request of the failed attempt. *)
Theorem transient_failure_is_retried (req : request) (w w1 : world) :
  let rt := spotifyRefreshToken (creds w) in
  truthy rt = true ->
  refresh w = (Returned false, w1) ->
  invalid_grant (net (trace w ++ [ERefresh]) (tokreq rt)) = false ->
  posts (trace w1) = posts (trace w) ++ [tokreq rt]
  /\ exists wf rest,
       handle req w1 = (Returned tt, wf)
       /\ trace wf = trace w1 ++ ERefresh :: EPost (tokreq rt) :: rest.
Proof.
  intros rt H R G.
  assert (spotifyAccessToken (creds w1) = JStr ""
          /\ spotifyRefreshToken (creds w1) = rt
          /\ trace w1 = trace w ++ [ERefresh; EPost (tokreq rt)]) as (A & K & T).
  { rewrite (refresh_with_token _ _ net w H) in R. fold rt in R.
    destruct (net (trace w ++ [ERefresh]) (tokreq rt)) as [st d|st d|msg];
      simpl in R, G.
    - destruct (member d "access_token"); simpl in R; inversion R; repeat split.
    - rewrite G in R. inversion R; repeat split.
    - inversion R; repeat split. }
  split; [rewrite T, posts_app; reflexivity|].
  assert (truthy (spotifyRefreshToken (creds w1)) = true) as H1 by (rewrite K; exact H).
  assert (truthy (spotifyAccessToken (creds w1)) = false) as A1 by (rewrite A; reflexivity).
  pose proof (refresh_with_token CLIENT_ID CLIENT_SECRET net w1 H1) as R1. simpl in R1. rewrite K in R1.
  destruct (fst (refresh_settles rt (net (trace w1 ++ [ERefresh]) (tokreq rt)))) eqn:OK.
  - rewrite (handler_forward _ _ _ req (token_refreshed _ _ _ w1 _ A1 R1)).
    destruct (forward_shape CLIENT_ID CLIENT_SECRET net req
                {| creds := snd (refresh_settles rt (net (trace w1 ++ [ERefresh]) (tokreq rt)));
                   trace := trace w1 ++ [ERefresh; EPost (tokreq rt)] |})
      as (wf & rest & E & Tf).
    eexists wf, _. split; [exact E|]. rewrite Tf. simpl.
    rewrite <- app_assoc. reflexivity.
  - unfold handler, bind, read_access; simpl. rewrite A1; simpl. rewrite R1; simpl.
    eexists; eexists. split; [reflexivity|]. simpl.
    rewrite <- app_assoc. reflexivity.
Qed.

End BetweenRequests.

(* ================================================================== *)
(** ** What the proxy writes into its calls, and how it starts *)
(* ================================================================== *)

Section Written.

Local Open Scope list_scope.

(** X8.  The call to the token endpoint can be read back: its
    [Authorization] header is [Basic] and the base64 of
    [CLIENT_ID:CLIENT_SECRET], which decodes to just that, and its
    form-encoded body reads as the grant type and the stored refresh
    token, whatever characters they hold. *)
Theorem token_call_reads_back (CLIENT_ID CLIENT_SECRET : string) (rt : jsval) :
  let cfg := token_request CLIENT_ID CLIENT_SECRET rt in
  exists credentials body,
    lookup "Authorization" (cfg_headers cfg) = Some ("Basic " ++ credentials)%string
    /\ Codec.base64_decode credentials = Some (CLIENT_ID ++ ":" ++ CLIENT_SECRET)%string
    /\ cfg_data cfg = Some (JStr body)
    /\ Query.parse body
       = [("grant_type", "refresh_token"); ("refresh_token", to_string rt)].
Proof.
  intros cfg. eexists; eexists.
  split; [reflexivity|]. split; [apply CodecFacts.base64_read_back|].
  split; [reflexivity|]. unfold token_body. rewrite QueryFacts.parse_toString. reflexivity.
Qed.

(** X9.  The upstream URL has a question mark exactly when the parsed
    query has a parameter: with none, the URL ends with the path; with
    some, a non-empty query string follows the mark.  Either way the
    query string is made of letters, digits and [*-._+%=&] only. *)
Theorem upstream_url_query (req : request) :
  let q := URLSearchParams_toString (req_query req) in
  let base := ("https://api.spotify.com/v1/" ++ strip_leading_slash (req_path req))%string in
  (req_query req = [] -> spotifyUrl req = base)
  /\ (req_query req <> [] -> spotifyUrl req = (base ++ "?" ++ q)%string /\ q <> ""%string)
  /\ Codec.every Codec.query_char q = true.
Proof.
  intros q base. split; [|split].
  - intros E. unfold spotifyUrl, spotifyEndpoint. rewrite E. simpl.
    subst base. rewrite QueryFacts.append_empty. reflexivity.
  - intros N. unfold spotifyUrl, spotifyEndpoint. fold q.
    destruct (String.eqb q "") eqn:E.
    + apply CodecFacts.toString_empty in E. contradiction.
    + apply String.eqb_neq in E. split; [|exact E].
      subst base. rewrite QueryFacts.append_assoc. reflexivity.
  - apply CodecFacts.toString_query_chars.
Qed.

(** X10.  The process gives up with exit code 1 before any call when one
    of the four variables is unset or empty.  With all four set it
    refreshes once, from an empty access token and the configured refresh
    token, and then listens on [PORT] or 8000 whether or not that refresh
    succeeded; the refresh itself never makes the start fail. *)
Theorem start_outcomes (env : environment) (net : network) (listen_error : option string) :
  let unset name := truthy (getenv env name) = false in
  ((unset "SPOTIFY_CLIENT_ID" \/ unset "SPOTIFY_CLIENT_SECRET"
    \/ unset "SPOTIFY_REFRESH_TOKEN" \/ unset "FRONTEND_URL") ->
   start env net listen_error = ConfigMissing)
  /\ (forall id secret token url : string,
         lookup "SPOTIFY_CLIENT_ID" env = Some id -> id <> ""%string ->
         lookup "SPOTIFY_CLIENT_SECRET" env = Some secret -> secret <> ""%string ->
         lookup "SPOTIFY_REFRESH_TOKEN" env = Some token -> token <> ""%string ->
         lookup "FRONTEND_URL" env = Some url -> url <> ""%string ->
         exists ok w,
           refreshAccessToken id secret net (startup token) = (Returned ok, w)
           /\ settled (creds w)
           /\ start env net listen_error
              = match listen_error with
                | None => Listening (js_or (getenv env "PORT") (JNum 8000)) w
                | Some _ => ListenFailed w
                end).
Proof.
  intros unset. split.
  - intros U. unfold start. subst unset. simpl in U.
    destruct U as [-> | [-> | [-> | ->]]]; simpl; rewrite ?orb_true_r; reflexivity.
  - intros id secret token url Li Ni Ls Ns Lt Nt Lu Nu.
    apply String.eqb_neq in Ni, Ns, Nt, Nu.
    destruct (refresh_returns id secret net (startup token)) as (ok & w & R).
    exists ok, w. split; [exact R|]. split.
    + apply (refresh_settled id secret net _ _ _) with (2 := R).
      left. simpl. rewrite Nt. reflexivity.
    + unfold start, getenv. rewrite Li, Ls, Lt, Lu. simpl.
      rewrite Ni, Ns, Nt, Nu. simpl.
      unfold startup in R. rewrite R. reflexivity.
Qed.

End Written.

(* ================================================================== *)
(** ** The one-shot script's contract *)
(* ================================================================== *)

(** What [preview] lets pass: a falsy value or a string. *)
Definition previewable (v : jsval) : bool :=
  negb (truthy v) || match v with JStr _ => true | _ => false end.

Section BootstrapContract.

Import Bootstrap.

Variable clientId clientSecret redirectUri scope : string.
Variable exchange : axios_config -> axios_result.

Local Open Scope list_scope.

Local Abbreviation on_callback := (callback clientId clientSecret redirectUri exchange).
Local Abbreviation asked := (exchange_request clientId clientSecret redirectUri).
Local Abbreviation auth_url := (authUrl clientId redirectUri scope).

Lemma js_or_null (v : jsval) :
  truthy (js_or v JNull) = truthy v
  /\ (truthy v = true -> js_or v JNull = v).
Proof. unfold js_or. destruct (truthy v) eqn:T; split; auto; discriminate. Qed.

Lemma preview_passes (name : string) (v : jsval) (t : list effect) :
  previewable v = true -> preview name v t = (Returned tt, t).
Proof.
  unfold previewable, preview. destruct (truthy v); simpl; [|reflexivity].
  destruct v; intros; try discriminate; reflexivity.
Qed.


Lemma preview_throws (name : string) (v : jsval) (t : list effect) :
  previewable v = false ->
  exists err, preview name v t = (Thrown err, t).
Proof.
  unfold previewable, preview. destruct (truthy v); simpl; [|discriminate].
  destruct v; intros; try discriminate; eexists; reflexivity.
Qed.

Lemma get_member_some (v x : jsval) (k : string) (t : list effect) :
  member v k = Some x -> get_member v k t = (Returned x, t).
Proof. unfold get_member. intros ->. reflexivity. Qed.

Lemma get_member_none (v : jsval) (k : string) (t : list effect) :
  member v k = None -> exists err, get_member v k t = (Thrown err, t).
Proof. unfold get_member. intros ->. eexists; reflexivity. Qed.

Lemma member_all_or_none (d a : jsval) (k k' : string) :
  member d k = Some a -> exists x, member d k' = Some x.
Proof. destruct d; simpl; intros; try discriminate; eauto. Qed.


(** X13.  [/callback] never looks at [state]: two requests with the same
    [code] and [error] are handled alike, whatever [state] they carry or
    lack. *)
Theorem callback_ignores_state (req1 req2 : request) (t : list effect) :
  query_param req1 "code" = query_param req2 "code" ->
  query_param req1 "error" = query_param req2 "error" ->
  on_callback req1 t = on_callback req2 t.
Proof. intros C E. unfold callback. rewrite C, E. reflexivity. Qed.

(** X14.  A [code] that is truthy and no string (a repeated parameter
    parsed to an array, say) makes [/callback] throw at its first log
    line, before any statement of its own that sends a response, calls
    the token endpoint or ends the process. *)
Theorem callback_code_not_a_string (req : request) (t : list effect) :
  previewable (query_param req "code") = false ->
  exists err, on_callback req t = (Thrown err, t).
Proof.
  intros P.
  assert (truthy (query_param req "code") = true) as T.
  { unfold previewable in P. destruct (truthy (query_param req "code")); [reflexivity|].
    discriminate P. }
  destruct (js_or_null (query_param req "code")) as [_ Ec].
  unfold callback, bind. rewrite (Ec T).
  destruct (preview_throws "code" _ t P) as (err & Pt). rewrite Pt. eauto.
Qed.

(** X15.  [/login] always ends normally: it first answers 200 with the
    redirect page for [authUrl], then tries to open the browser at the
    same URL, once, unless the import of [open] fails; a failure of
    either is swallowed. *)
Theorem login_run (random : string) (opening : browser) (t : list effect) :
  let url := auth_url (to_hex random) in
  login clientId redirectUri scope random opening t
  = (Returned tt,
     t ++ Send 200 (redirect_page url)
       :: match opening with
          | ImportRejected _ => []
          | OpenRejected _ | Opened => [Open url]
          end).
Proof.
  intros url. unfold login, bind, try_catch, send, effect_, throw, ret.
  fold url. destruct opening; cbn beta iota; rewrite <- ?app_assoc; reflexivity.
Qed.

(** X16.  The authorization URL reads back: after the fixed prefix comes
    a query string from which the five parameters are recovered in order
    with the values of the environment and the state, whatever
    characters those hold. *)
Theorem authorize_url_reads_back (state : string) :
  exists q,
    auth_url state = ("https://accounts.spotify.com/authorize?" ++ q)%string
    /\ Query.parse q
       = [("response_type", "code"); ("client_id", clientId); ("scope", scope);
          ("redirect_uri", redirectUri); ("state", state)].
Proof.
  eexists. split; [reflexivity|].
  rewrite QueryFacts.parse_toString. reflexivity.
Qed.

(** X18.  The authorization URL is made of letters, digits and
    [*-._+%=&:/?] only, whatever the environment and the state hold; so
    it has no double quote, angle bracket or backslash, and the redirect
    page, which puts it between double quotes inside a script, is closed
    by its own quote and no other. *)
Theorem redirect_page_is_inert (state : string) :
  let url := auth_url state in
  Codec.every Codec.url_char url = true
  /\ Query.occurs "034" url = false
  /\ Query.occurs "<" url = false
  /\ Query.occurs ">" url = false
  /\ Query.occurs "\" url = false
  /\ redirect_page url
     = ("<html><body><p>Redirecting you to Spotify to authorize...</p><script>window.location.href="
          ++ dq ++ url ++ dq ++ ";</script></body></html>")%string.
Proof.
  intros url.
  assert (Codec.every Codec.url_char url = true) as U.
  { subst url. unfold authUrl. rewrite CodecFacts.every_app. apply andb_true_iff. split.
    - reflexivity.
    - apply (CodecFacts.every_weaken Codec.query_char);
        [|apply CodecFacts.toString_query_chars].
      intros c H. unfold Codec.url_char. rewrite H. reflexivity. }
  split; [exact U|].
  repeat (split; [apply (CodecFacts.every_occurs _ _ _ U); reflexivity|]).
  reflexivity.
Qed.

End BootstrapContract.

Section BootstrapStart.

Import Bootstrap.

(** X17.  The state is the lowercase hex of the random bytes: two digits
    per byte, from which the bytes are recovered, so that different
    bytes give different states; and it enters the URL as it is, none of
    its characters being escaped. *)
Theorem state_is_hex_of_random (random : string) :
  let state := to_hex random in
  String.length state = (2 * String.length random)%nat
  /\ Codec.every Codec.lower_hex state = true
  /\ Codec.from_hex state = Some random
  /\ urlencode state = state.
Proof.
  intros state. split; [apply CodecFacts.to_hex_length|].
  split; [apply CodecFacts.to_hex_lower|].
  split; [apply CodecFacts.from_hex_to_hex | apply CodecFacts.to_hex_unescaped].
Qed.

(** The script ends with exit code 1 before listening when one of its
    four variables is unset or empty; with all four set it listens on
    [TEMP_PORT] or 8888, and ends with exit code 1 if that fails. *)
Lemma launch_outcomes (env : environment) (listen_error : option string) :
  let unset name := truthy (getenv env name) = false in
  ((unset "SPOTIFY_CLIENT_ID" \/ unset "SPOTIFY_CLIENT_SECRET"
    \/ unset "TEMP_REDIRECT_URI" \/ unset "SPOTIFY_SCOPES") ->
   launch env listen_error = Unconfigured)
  /\ (truthy (getenv env "SPOTIFY_CLIENT_ID") = true ->
      truthy (getenv env "SPOTIFY_CLIENT_SECRET") = true ->
      truthy (getenv env "TEMP_REDIRECT_URI") = true ->
      truthy (getenv env "SPOTIFY_SCOPES") = true ->
      launch env listen_error
      = match listen_error with
        | None => Serving (js_or (getenv env "TEMP_PORT") (JNum 8888))
        | Some _ => PortTaken
        end).
Proof.
  intros unset. split.
  - intros U. unfold launch. subst unset. simpl in U.
    destruct U as [-> | [-> | [-> | ->]]]; simpl; rewrite ?orb_true_r; reflexivity.
  - intros A B C D. unfold launch. rewrite A, B, C, D. reflexivity.
Qed.

End BootstrapStart.

(* ================================================================== *)
(** ** The contract on concrete runs *)
(* ================================================================== *)

Section Runs.

Import Run.
Local Open Scope list_scope.




(** C8 on a run: the upstream answers 429. *)
Lemma C8_witness :
  let net := scripted [] [RejectedResponse 429 rate_limited] in
  let w := holding (JStr "tok") (JStr "r0") in
  let cfg1 := first_config get_me (spotifyAccessToken (creds w)) in
  first_attempt_from id secret net w w
  /\ net (trace w) cfg1 = RejectedResponse 429 rate_limited
  /\ (429 =? 401) = false
  /\ handler id secret net get_me w
     = (Returned tt, after w [ERequest cfg1; ERespond 429 rate_limited]).
Proof.
  cbv zeta.
  assert (first_attempt_from id secret
            (scripted [] [RejectedResponse 429 rate_limited])
            (holding (JStr "tok") (JStr "r0")) (holding (JStr "tok") (JStr "r0"))) as F.
  { apply token_held. reflexivity. }
  split; [exact F|]. split; [reflexivity|]. split; [reflexivity|].
  apply (C8_other_statuses_relayed id secret _ get_me _ _ 429 rate_limited F);
    reflexivity.
Defined.


End Runs.

Section ManagerRuns.

Import Run.
Local Open Scope list_scope.

(** C2 on a run: the token endpoint refuses the refresh token. *)
Lemma C2_witness :
  let net := scripted [revoked] [] in
  let w := holding (JStr "") (JStr "r0") in
  let d := JObj [("error", JStr "invalid_grant");
                 ("error_description", JStr "Refresh token revoked")] in
  truthy (spotifyRefreshToken (creds w)) = true
  /\ net (trace w ++ [ERefresh]) (token_request id secret (spotifyRefreshToken (creds w)))
     = RejectedResponse 400 d
  /\ member_opt d "error" = JStr "invalid_grant"
  /\ exists w1,
       refreshAccessToken id secret net w = (Returned false, w1)
       /\ creds w1 = {| spotifyAccessToken := JStr ""; spotifyRefreshToken := JNull |}.
Proof.
  cbv zeta. split; [reflexivity|]. split; [reflexivity|]. split; [reflexivity|].
  apply (proj1 (proj2 (C2_null_refresh_token_is_final id secret (scripted [revoked] [])))
           (holding (JStr "") (JStr "r0"))
           (JObj [("error", JStr "invalid_grant");
                  ("error_description", JStr "Refresh token revoked")]));
    reflexivity.
Defined.

(** C4 on a run: the token endpoint rotates the refresh token. *)
Lemma C4_witness :
  let net := scripted [Fulfilled 200 (JObj [("access_token", JStr "a1");
                                            ("refresh_token", JStr "r1")])] [] in
  let w := holding (JStr "") (JStr "r0") in
  let w' := {| creds := {| spotifyAccessToken := JStr "a1";
                           spotifyRefreshToken := JStr "r1" |};
               trace := [ERefresh; EPost (token_request id secret (JStr "r0"))] |} in
  refreshAccessToken id secret net w = (Returned true, w')
  /\ exists (st : Z) (d : jsval),
       net (trace w ++ [ERefresh]) (token_request id secret (spotifyRefreshToken (creds w)))
         = Fulfilled st d
       /\ member d "access_token" = Some (spotifyAccessToken (creds w'))
       /\ (truthy (member_opt d "refresh_token") = true ->
           spotifyRefreshToken (creds w') = member_opt d "refresh_token")
       /\ (truthy (member_opt d "refresh_token") = false ->
           spotifyRefreshToken (creds w') = spotifyRefreshToken (creds w))
       /\ (forall props, d = JObj props -> lookup "refresh_token" props = None ->
           spotifyRefreshToken (creds w') = spotifyRefreshToken (creds w)).
Proof.
  cbv zeta. split; [reflexivity|].
  apply (C4_success_stores_and_rotates id secret
           (scripted [Fulfilled 200 (JObj [("access_token", JStr "a1");
                                           ("refresh_token", JStr "r1")])] [])
           (holding (JStr "") (JStr "r0"))).
  reflexivity.
Defined.


(** C2 as stated fails.  Two refreshes are awaiting their answers, both
    sent with the refresh token [r0].  The second is answered 400 with
    [invalid_grant] and nulls the refresh token; then the first is
    answered 200 with a rotated [refresh_token], which is stored.  The
    refresh token is not [null] any more, and the next refresh calls
    the token endpoint with it. *)
Lemma C2_counterexample :
  let w0 := holding (JStr "") (JStr "r0") in
  let sent := token_request id secret (JStr "r0") in
  let rotated := Fulfilled 200 (JObj [("access_token", JStr "a1");
                                      ("refresh_token", JStr "r1")]) in
  exists w1 w2 w3 w4 w5,
    refresh_until_await id secret w0 = (Returned (Some sent), w1)
    /\ refresh_until_await id secret w1 = (Returned (Some sent), w2)
    /\ refresh_from_await revoked w2 = (Returned false, w3)
    /\ spotifyRefreshToken (creds w3) = JNull
    /\ refresh_from_await rotated w3 = (Returned true, w4)
    /\ spotifyRefreshToken (creds w4) = JStr "r1"
    /\ refreshAccessToken id secret (scripted [] []) w4 = (Returned false, w5)
    /\ posts (trace w5) = [sent; sent; token_request id secret (JStr "r1")].
Proof.
  cbv zeta. do 5 eexists.
  split; [vm_compute; reflexivity|]. split; [vm_compute; reflexivity|].
  split; [vm_compute; reflexivity|]. split; [reflexivity|].
  split; [vm_compute; reflexivity|]. split; [reflexivity|].
  split; [vm_compute; reflexivity|]. reflexivity.
Qed.

(** C9 as stated fails: the token endpoint answers 200 with the body
    [null]; reading [access_token] off it throws, the [catch] block runs
    and [refreshAccessToken] returns [false]. *)
Lemma C9_counterexample :
  let net := scripted [Fulfilled 200 JNull] [] in
  let w := holding (JStr "") (JStr "r0") in
  net (trace w ++ [ERefresh]) (token_request id secret (JStr "r0")) = Fulfilled 200 JNull
  /\ exists w',
       refreshAccessToken id secret net w = (Returned false, w')
       /\ creds w' = {| spotifyAccessToken := JStr "";
                        spotifyRefreshToken := JStr "r0" |}.
Proof.
  cbv zeta. split; [reflexivity|]. eexists. split; [vm_compute; reflexivity|].
  reflexivity.
Qed.

(** C9 on a run: a 200 whose body has no [access_token]. *)
Lemma C9_witness :
  let d := JObj [("token_type", JStr "Bearer")] in
  let net := scripted [Fulfilled 200 d] [] in
  let w := holding (JStr "") (JStr "r0") in
  let rt := spotifyRefreshToken (creds w) in
  truthy rt = true
  /\ net (trace w ++ [ERefresh]) (token_request id secret rt) = Fulfilled 200 d
  /\ exists w',
       refreshAccessToken id secret net w = (Returned true, w')
       /\ member d "access_token" = Some (spotifyAccessToken (creds w'))
       /\ (forall props, d = JObj props -> lookup "access_token" props = None ->
           spotifyAccessToken (creds w') = JUndefined
           /\ truthy (spotifyAccessToken (creds w')) = false).
Proof.
  cbv zeta. split; [reflexivity|]. split; [reflexivity|].
  apply (C9_fulfilled_is_success id secret
           (scripted [Fulfilled 200 (JObj [("token_type", JStr "Bearer")])] [])
           (holding (JStr "") (JStr "r0")) 200);
    [reflexivity | reflexivity | discriminate | discriminate].
Defined.

(** C7 on a run.  A POST with a JSON body meets a 401 and is sent again:
    the second call has the method, the URL and the body of the first and
    the new token, but not its [Content-Type] header.  And a request
    whose parsed body is the empty object is first sent without [data]
    and then with [data: {}]. *)
Lemma C7_retry_is_not_the_first_attempt :
  let net := scripted [granted "new"]
                      [RejectedResponse 401 expired;
                       Fulfilled 200 (JObj [("snapshot_id", JStr "s1")])] in
  let w := holding (JStr "old") (JStr "r0") in
  let first := first_config add_tracks (JStr "old") in
  let second := retry_config add_tracks (JStr "new") in
  (exists wf,
      handler id secret net add_tracks w = (Returned tt, wf)
      /\ requests (trace wf) = [first; second])
  /\ cfg_method second = cfg_method first
  /\ cfg_url second = cfg_url first
  /\ cfg_data second = cfg_data first
  /\ cfg_headers first = [("Authorization", "Bearer old");
                          ("Content-Type", "application/json")]
  /\ cfg_headers second = [("Authorization", "Bearer new")]
  /\ cfg_data (first_config pause (JStr "old")) = None
  /\ cfg_data (retry_config pause (JStr "new")) = Some (JObj []).
Proof.
  cbv zeta. split; [eexists; split; vm_compute; reflexivity|].
  repeat split.
Qed.



End ManagerRuns.

Section ServiceRuns.

Import Run.
Local Open Scope list_scope.

(** X2 on a run: no access token is held, the refresh brings one, and
    [GET /me] is answered 200. *)
Lemma upstream_success_witness :
  let net := scripted [granted "a1"] [Fulfilled 200 (JObj [("id", JStr "u1")])] in
  let w := holding (JStr "") (JStr "r0") in
  let w1 := {| creds := {| spotifyAccessToken := JStr "a1";
                           spotifyRefreshToken := JStr "r0" |};
               trace := [ERefresh; EPost (token_request id secret (JStr "r0"))] |} in
  let cfg1 := first_config get_me (spotifyAccessToken (creds w1)) in
  first_attempt_from id secret net w w1
  /\ net (trace w1) cfg1 = Fulfilled 200 (JObj [("id", JStr "u1")])
  /\ handler id secret net get_me w
     = (Returned tt, after w1 [ERequest cfg1; ERespond 200 (JObj [("id", JStr "u1")])]).
Proof.
  cbv zeta.
  assert (first_attempt_from id secret
            (scripted [granted "a1"] [Fulfilled 200 (JObj [("id", JStr "u1")])])
            (holding (JStr "") (JStr "r0"))
            {| creds := {| spotifyAccessToken := JStr "a1";
                           spotifyRefreshToken := JStr "r0" |};
               trace := [ERefresh; EPost (token_request id secret (JStr "r0"))] |}) as F.
  { apply token_refreshed; reflexivity. }
  split; [exact F|]. split; [reflexivity|].
  apply (upstream_success_is_relayed id secret _ get_me _ _ 200 _ F). reflexivity.
Defined.

(** X3 on a run: the upstream call times out. *)
Lemma upstream_silence_witness :
  let net := scripted [] [] in
  let w := holding (JStr "tok") (JStr "r0") in
  let cfg1 := first_config get_me (spotifyAccessToken (creds w)) in
  first_attempt_from id secret net w w
  /\ net (trace w) cfg1 = RejectedNoResponse "timeout of 15000ms exceeded"
  /\ handler id secret net get_me w =
       (Returned tt,
        after w [ERequest cfg1;
                 ERespond 500 (JObj [("error", JStr "Internal Server Error");
                                     ("message", JStr "Failed to communicate with Spotify.")])]).
Proof.
  cbv zeta.
  assert (first_attempt_from id secret (scripted [] [])
            (holding (JStr "tok") (JStr "r0")) (holding (JStr "tok") (JStr "r0"))) as F.
  { apply token_held. reflexivity. }
  split; [exact F|]. split; [reflexivity|].
  apply (upstream_silence_is_500 id secret _ get_me _ _ "timeout of 15000ms exceeded" F).
  reflexivity.
Defined.

(** X4 on a run: the first refresh is refused with [invalid_grant], one
    request is served, and the next one finds the refresh token [null]. *)
Lemma null_refresh_token_witness :
  let net := scripted [revoked] [] in
  let w := snd (main id secret net [get_me] (startup "r0")) in
  "r0" <> ""
  /\ main id secret net [get_me] (startup "r0") = (Returned tt, w)
  /\ spotifyRefreshToken (creds w) = JNull
  /\ handler id secret net get_tracks w
     = (Returned tt, after w [ERefresh; ERespond 503 auth_failed]).
Proof.
  cbv zeta.
  assert ("r0" <> "") as T by discriminate.
  split; [exact T|]. split; [reflexivity|]. split; [reflexivity|].
  apply (null_refresh_token_means_503 id secret (scripted [revoked] []) "r0" [get_me]
           _ get_tracks T); reflexivity.
Defined.

End ServiceRuns.

Section MoreRuns.

Import Run.
Local Open Scope list_scope.


(** X7 on a run: the token endpoint answers 503 once. *)
Lemma transient_failure_witness :
  let net := scripted [RejectedResponse 503 (JStr "upstream connect error"); granted "a1"]
                      [Fulfilled 200 (JObj [("id", JStr "u1")])] in
  let w := holding (JStr "") (JStr "r0") in
  let w1 := {| creds := {| spotifyAccessToken := JStr "";
                           spotifyRefreshToken := JStr "r0" |};
               trace := [ERefresh; EPost (token_request id secret (JStr "r0"))] |} in
  let rt := spotifyRefreshToken (creds w) in
  truthy rt = true
  /\ refreshAccessToken id secret net w = (Returned false, w1)
  /\ invalid_grant (net (trace w ++ [ERefresh]) (token_request id secret rt)) = false
  /\ posts (trace w1) = posts (trace w) ++ [token_request id secret rt]
  /\ exists wf rest,
       handler id secret net get_me w1 = (Returned tt, wf)
       /\ trace wf = trace w1 ++ ERefresh :: EPost (token_request id secret rt) :: rest.
Proof.
  cbv zeta. split; [reflexivity|]. split; [reflexivity|]. split; [reflexivity|].
  apply (transient_failure_is_retried id secret
           (scripted [RejectedResponse 503 (JStr "upstream connect error"); granted "a1"]
                     [Fulfilled 200 (JObj [("id", JStr "u1")])])
           get_me (holding (JStr "") (JStr "r0"))); reflexivity.
Defined.

End MoreRuns.

Section ScriptRuns.

Import Bootstrap ScriptRun.
Local Open Scope list_scope.



(** X13 on a run: the same code with and without a state. *)
Lemma callback_ignores_state_witness :
  query_param callback_with_code "code" = query_param callback_without_state "code"
  /\ query_param callback_with_code "error" = query_param callback_without_state "error"
  /\ callback "id" "secret" "http://localhost:8888/callback" tokens_granted
       callback_with_code []
     = callback "id" "secret" "http://localhost:8888/callback" tokens_granted
         callback_without_state [].
Proof.
  split; [reflexivity|]. split; [reflexivity|].
  apply (callback_ignores_state "id" "secret" "http://localhost:8888/callback"
           tokens_granted callback_with_code callback_without_state []);
    reflexivity.
Defined.

(** X14 on a run: [code] comes twice and is parsed to an array. *)
Lemma callback_code_array_witness :
  previewable (query_param callback_code_twice "code") = false
  /\ exists err,
       callback "id" "secret" "http://localhost:8888/callback" tokens_granted
         callback_code_twice []
       = (Thrown err, []).
Proof.
  split; [reflexivity|].
  apply (callback_code_not_a_string "id" "secret" "http://localhost:8888/callback"
           tokens_granted callback_code_twice []).
  reflexivity.
Defined.

End ScriptRuns.
